(** * Hexagonal bank: domain, in-memory store, payment rail and transfer workflow

    A shallow embedding of the Go sources:
    - [internal/core/domain]: errors, [CLABE], [Account];
    - [internal/adapters/out/memory]: [AccountRepository];
    - [internal/platform/backoff]: [FullJitter];
    - [internal/adapters/out/stp]: [FakeSTP.SendTransfer];
    - [internal/core/application/usecase]: [TransferMoneyUseCase.Execute].

    Go's [int64] is a [Z] with the two's complement wrap-around written out;
    Go strings are byte strings ([string] of 8-bit characters); pointers to
    accounts are addresses into an explicit heap; the [float64] arithmetic
    of the backoff is that of IEEE-754 binary64. *)

From Stdlib Require Import ZArith QArith Qround Lia List Ascii String SpecFloat.
From stdpp Require Import gmap strings list.

Close Scope Q_scope.
Local Open Scope Z_scope.

(** ** Machine integers *)

Module Int64.

Definition MinInt64 : Z := - 2 ^ 63.
Definition MaxInt64 : Z := 2 ^ 63 - 1.

(** The value an [int64] register holds after an arithmetic result [z]. *)
Definition wrap (z : Z) : Z := (z + 2 ^ 63) mod 2 ^ 64 - 2 ^ 63.

Definition add (x y : Z) : Z := wrap (x + y).
Definition sub (x y : Z) : Z := wrap (x - y).

Definition in_range (z : Z) : Prop := MinInt64 <= z <= MaxInt64.

End Int64.

(** ** Strings as Go sees them: bytes, and runes when ranged over *)

Module GoString.

Definition byte_of (c : ascii) : Z := Z.of_N (Ascii.N_of_ascii c).

Fixpoint bytes (s : string) : list Z :=
  match s with
  | EmptyString => []
  | String c rest => byte_of c :: bytes rest
  end.

(** [len(s)]: the number of bytes. *)
Definition len (s : string) : Z := Z.of_nat (String.length s).

Definition RuneError : Z := 65533.

(** Continuation byte of a multi-byte UTF-8 sequence. *)
Definition is_cont (b : Z) : bool := (128 <=? b) && (b <=? 191).

(** The rune that starts at the head of a byte sequence and its width in
    bytes, as [for _, r := range s] decodes it: ASCII bytes stand for
    themselves; a well-formed 2, 3 or 4 byte sequence yields its code point;
    anything else yields [RuneError] and advances one byte. *)
Definition decode_rune (bs : list Z) : Z * nat :=
  match bs with
  | [] => (RuneError, 0%nat)
  | b0 :: rest =>
    if b0 <? 128 then (b0, 1%nat)
    else if (194 <=? b0) && (b0 <=? 223) then
      match rest with
      | b1 :: _ =>
        if is_cont b1 then ((b0 - 192) * 64 + (b1 - 128), 2%nat)
        else (RuneError, 1%nat)
      | _ => (RuneError, 1%nat)
      end
    else if (224 <=? b0) && (b0 <=? 239) then
      match rest with
      | b1 :: b2 :: _ =>
        let lo := if b0 =? 224 then 160 else 128 in
        let hi := if b0 =? 237 then 159 else 191 in
        if (lo <=? b1) && (b1 <=? hi) && is_cont b2
        then ((b0 - 224) * 4096 + (b1 - 128) * 64 + (b2 - 128), 3%nat)
        else (RuneError, 1%nat)
      | _ => (RuneError, 1%nat)
      end
    else if (240 <=? b0) && (b0 <=? 244) then
      match rest with
      | b1 :: b2 :: b3 :: _ =>
        let lo := if b0 =? 240 then 144 else 128 in
        let hi := if b0 =? 244 then 143 else 191 in
        if (lo <=? b1) && (b1 <=? hi) && is_cont b2 && is_cont b3
        then ((b0 - 240) * 262144 + (b1 - 128) * 4096
              + (b2 - 128) * 64 + (b3 - 128), 4%nat)
        else (RuneError, 1%nat)
      | _ => (RuneError, 1%nat)
      end
    else (RuneError, 1%nat)
  end.

(** The runes of a byte sequence; [skip] counts the bytes of the rune
    decoded last that are still to be stepped over. *)
Fixpoint runes_from (skip : nat) (bs : list Z) : list Z :=
  match bs with
  | [] => []
  | b :: rest =>
    match skip with
    | S k => runes_from k rest
    | O => let '(r, w) := decode_rune bs in r :: runes_from (Nat.pred w) rest
    end
  end.

Definition runes (s : string) : list Z := runes_from 0 (bytes s).

(** [strings.ReplaceAll(s, " ", "")]: every byte 0x20 is dropped. *)
Fixpoint remove_spaces (s : string) : string :=
  match s with
  | EmptyString => EmptyString
  | String c rest =>
    if Ascii.eqb c " "%char then remove_spaces rest
    else String c (remove_spaces rest)
  end.

(** [unicode.IsSpace]. *)
Definition IsSpace (r : Z) : bool :=
  ((9 <=? r) && (r <=? 13)) || (r =? 32) || (r =? 133) || (r =? 160)
  || (r =? 5760) || ((8192 <=? r) && (r <=? 8202))
  || (r =? 8232) || (r =? 8233) || (r =? 8239) || (r =? 8287) || (r =? 12288).

(** [strings.TrimSpace(s) == ""]: nothing is left once white space is trimmed
    from both ends, that is, every rune of [s] is white space. *)
Definition TrimSpace_empty (s : string) : bool := forallb IsSpace (runes s).

End GoString.

(** ** Domain: errors, CLABE, Account *)

(** Every error value the modelled packages build. *)
Inductive error : Type :=
| ErrInvalidAmount
| ErrInsufficientFund
| ErrInvalidCLABE
| ErrEmptyHolder
| ErrNotFound            (* errors.New("not found") *)
| ErrAlreadyExists       (* errors.New("already exists") *)
| ErrTransient           (* errors.New("temporary STP outage") *)
| ErrContext             (* ctx.Err() *)
| ErrUnreachable         (* fmt.Errorf("unreachable") *)
| ErrStpNotOk (status : string).  (* fmt.Errorf("stp not ok: %s", status) *)

Record CLABE : Type := mkCLABE { value : string }.

Definition is_digit (r : Z) : bool := negb ((r <? 48) || (r >? 57)).

(** The [for _, r := range normalized] loop of [NewCLABE]: [false] as soon
    as a rune is outside ['0'..'9']. *)
Fixpoint all_digit_runes (rs : list Z) : bool :=
  match rs with
  | [] => true
  | r :: rest => if (r <? 48) || (r >? 57) then false else all_digit_runes rest
  end.

Definition NewCLABE (raw : string) : CLABE * option error :=
  let normalized := GoString.remove_spaces raw in
  if negb (GoString.len normalized =? 18) then (mkCLABE "", Some ErrInvalidCLABE)
  else if all_digit_runes (GoString.runes normalized)
       then (mkCLABE normalized, None)
       else (mkCLABE "", Some ErrInvalidCLABE).

Record Account : Type := mkAccount {
  ID : string;
  holderName : string;
  clabe : CLABE;
  balance : Z            (* int64, cents *)
}.

Definition set_balance (a : Account) (b : Z) : Account :=
  mkAccount (ID a) (holderName a) (clabe a) b.

(** [NewAccount]: [None] stands for the nil pointer returned with an error. *)
Definition NewAccount (id : string) (holder : string) (c : CLABE)
  : option Account * option error :=
  if GoString.TrimSpace_empty holder then (None, Some ErrEmptyHolder)
  else (Some (mkAccount id holder c 0), None).

(** The methods with pointer receiver, as transformers of the receiver's
    fields: the account after the call and the error returned. *)
Definition Debit (a : Account) (cents : Z) : Account * option error :=
  if cents <=? 0 then (a, Some ErrInvalidAmount)
  else if Int64.sub (balance a) cents <? 0 then (a, Some ErrInsufficientFund)
  else (set_balance a (Int64.sub (balance a) cents), None).

Definition Credit (a : Account) (cents : Z) : Account * option error :=
  if cents <=? 0 then (a, Some ErrInvalidAmount)
  else (set_balance a (Int64.add (balance a) cents), None).

Definition Balance (a : Account) : Z := balance a.

(** ** The in-memory repository

    [repository.data] maps an id to a pointer; accounts live in a heap and a
    pointer is an index into it. Allocation appends, so a new pointer never
    aliases an old one. The mutex is left out: calls run one after another. *)

Abbreviation loc := nat.

(** Calls that cross a port, in the order they happen (a ghost trace). *)
Inductive call : Type :=
| CallByID (id : string)
| CallSave (account : option loc)
| CallCreate (account : option loc)
| CallSendTransfer (fromID toID : string) (cents : Z)
| CallPublish (topic : string) (fromID toID : string) (cents : Z).

Record World : Type := mkWorld {
  heap : list Account;
  data : gmap string loc;
  calls : list call
}.

(** A computation on the world; [None] is a run-time panic. *)
Definition M (A : Type) : Type := World -> option (A * World).

Definition ret {A} (a : A) : M A := fun w => Some (a, w).

Definition bind {A B} (m : M A) (k : A -> M B) : M B :=
  fun w => match m w with
           | Some (a, w') => k a w'
           | None => None
           end.

Notation "x <- m ;; k" := (bind m (fun x => k))
  (at level 100, m at next level, right associativity).
Notation "m ;;; k" := (bind m (fun _ => k))
  (at level 100, right associativity).

Definition panic {A} : M A := fun _ => None.

Definition record (c : call) : M unit :=
  fun w => Some (tt, mkWorld (heap w) (data w) (calls w ++ [c])).

(** [*p]: a nil or dangling pointer panics. *)
Definition load (p : option loc) : M Account :=
  fun w => match p with
           | Some l => match heap w !! l with
                       | Some a => Some (a, w)
                       | None => None
                       end
           | None => None
           end.

Definition store (p : option loc) (a : Account) : M unit :=
  fun w => match p with
           | Some l => if decide (l < length (heap w))%nat
                       then Some (tt, mkWorld (<[l:=a]> (heap w)) (data w) (calls w))
                       else None
           | None => None
           end.

(** [&copy]: a fresh cell holding [a]. *)
Definition alloc (a : Account) : M (option loc) :=
  fun w => Some (Some (length (heap w)),
                 mkWorld (heap w ++ [a]) (data w) (calls w)).

Definition data_lookup (id : string) : M (option loc) :=
  fun w => Some (data w !! id, w).

Definition data_insert (id : string) (p : option loc) : M unit :=
  fun w => match p with
           | Some l => Some (tt, mkWorld (heap w) (<[id:=l]> (data w)) (calls w))
           | None => None
           end.

Definition cloneAccount (account : option loc) : M (option loc) :=
  copy <- load account ;;
  alloc copy.

Definition NewAccountRepo : World := mkWorld [] ∅ [].

Definition ByID (id : string) : M (option loc * option error) :=
  record (CallByID id) ;;;
  found <- data_lookup id ;;
  match found with
  | None => ret (None, Some ErrNotFound)
  | Some account =>
    snapshot <- cloneAccount (Some account) ;;
    ret (snapshot, None)
  end.

Definition Save (account : option loc) : M (option error) :=
  record (CallSave account) ;;;
  a <- load account ;;
  snapshot <- cloneAccount account ;;
  data_insert (ID a) snapshot ;;;
  ret None.

Definition Create (account : option loc) : M (option error) :=
  record (CallCreate account) ;;;
  a <- load account ;;
  found <- data_lookup (ID a) ;;
  match found with
  | Some _ => ret (Some ErrAlreadyExists)
  | None =>
    snapshot <- cloneAccount account ;;
    data_insert (ID a) snapshot ;;;
    ret None
  end.

(** A method with pointer receiver, run on the cell the pointer names. *)
Definition on_receiver (method : Account -> Account * option error)
    (p : option loc) : M (option error) :=
  a <- load p ;;
  store p (fst (method a)) ;;;
  ret (snd (method a)).

Definition DebitAt (p : option loc) (cents : Z) : M (option error) :=
  on_receiver (fun a => Debit a cents) p.

Definition CreditAt (p : option loc) (cents : Z) : M (option error) :=
  on_receiver (fun a => Credit a cents) p.

Definition BalanceAt (p : option loc) : M Z :=
  a <- load p ;; ret (Balance a).

(** ** Backoff policy and the fake payment rail *)

(** A [float64] value, named by the rational it denotes. *)
Definition float64 : Type := Q.

(** What one attempt meets: whether [rand.Float64() < 0.7], the raw value
    [rand.Int63n] keeps for the jitter, and whether the [select] after a
    failed attempt takes the [ctx.Done()] branch. *)
Record attempt_outcome : Type := mkOutcome {
  rail_ok : bool;
  jitter_draw : Z;
  ctx_done : bool
}.

(** The surroundings of the rail client: the floating-point unit and what
    each attempt meets. [float_exponential attemptIndex baseDelay multiplier]
    is the [int64] that
    [time.Duration(float64(baseDelay) * math.Pow(multiplier, float64(attemptIndex)))]
    evaluates to; rounding and the conversion of an out-of-range product are
    left to the machine. *)
Record Ambient : Type := mkAmbient {
  float_exponential : Z -> Z -> float64 -> Z;
  meets : Z -> attempt_outcome
}.

Module backoff.

(** [rand.Int63n(n)]: panics when [n <= 0]; else the raw value it keeps,
    reduced modulo [n]. *)
Definition Int63n (draw n : Z) : option Z :=
  if n <=? 0 then None else Some (draw mod n).

Definition FullJitter (fpu : Z -> Z -> float64 -> Z) (draw : Z)
    (attemptIndex : Z) (baseDelay : Z) (multiplier : float64) (maxDelay : Z)
  : option Z :=
  let exponential := fpu attemptIndex baseDelay multiplier in
  let exponential := if exponential >? maxDelay then maxDelay else exponential in
  Int63n draw (Int64.add exponential 1).

End backoff.

Module FakeSTP.

Definition Millisecond : Z := 1000000.
Definition Second : Z := 1000000000.

Definition maxRetries : Z := 4.
Definition baseDelay : Z := 200 * Millisecond.
Definition multiplier : float64 := (2 # 1)%Q.
Definition maxDelay : Z := 3 * Second.

(** What the client does that the outside can see; the logger is a sink
    and is left out. *)
Inductive rail_event : Type :=
| Attempt (attemptIndex : Z)
| Wait (attemptIndex : Z) (sleepDuration : Z).

Inductive rail_result : Type :=
| Returns (status : string) (err : option error)
| Panics.

(** The [for attemptIndex := 0; attemptIndex <= maxRetries; attemptIndex++]
    loop from [attemptIndex] on; [fuel] bounds the iterations and [None]
    means it ran out. *)
Fixpoint attempts (amb : Ambient) (fuel : nat) (attemptIndex : Z)
    (seen : list rail_event) : option (rail_result * list rail_event) :=
  match fuel with
  | O => None
  | S fuel' =>
    if attemptIndex <=? maxRetries then
      let seen := seen ++ [Attempt attemptIndex] in
      if rail_ok (meets amb attemptIndex) then Some (Returns "OK" None, seen)
      else if attemptIndex =? maxRetries
      then Some (Returns "FAILED" (Some ErrTransient), seen)
      else
        match backoff.FullJitter (float_exponential amb)
                (jitter_draw (meets amb attemptIndex))
                attemptIndex baseDelay multiplier maxDelay with
        | None => Some (Panics, seen)
        | Some sleepDuration =>
          let seen := seen ++ [Wait attemptIndex sleepDuration] in
          if ctx_done (meets amb attemptIndex)
          then Some (Returns "CANCELLED" (Some ErrContext), seen)
          else attempts amb fuel' (attemptIndex + 1) seen
        end
    else Some (Returns "FAILED" (Some ErrUnreachable), seen)
  end.

Definition SendTransfer (amb : Ambient) (fromID toID : string) (cents : Z)
  : option (rail_result * list rail_event) :=
  attempts amb (S (Z.to_nat (maxRetries + 1))) 0 [].

Fixpoint count_attempts (seen : list rail_event) : nat :=
  match seen with
  | [] => 0
  | Attempt _ :: rest => S (count_attempts rest)
  | Wait _ _ :: rest => count_attempts rest
  end.

Fixpoint count_waits (seen : list rail_event) : nat :=
  match seen with
  | [] => 0
  | Attempt _ :: rest => count_waits rest
  | Wait _ _ :: rest => S (count_waits rest)
  end.

End FakeSTP.

(** ** The floating-point stage of [FullJitter], in IEEE-754 binary64

    [FullJitter] computes its ceiling as
    [time.Duration(float64(baseDelay) * math.Pow(multiplier, float64(attemptIndex)))].
    The two conversions from an integer and the product are those of the
    standard, rounding to nearest with ties to even, as the library's
    specification of binary floats gives them. [math.Pow], and what the
    conversion to [int64] yields for a float that no [int64] holds (which Go
    leaves to the implementation), are given by the machine. *)

Module IEEE.

Definition prec : Z := 53.
Definition emax : Z := 1024.

(** [float64(z)] for an integer [z]. *)
Definition float64_of_int64 (z : Z) : spec_float :=
  binary_normalize prec emax z 0 false.

(** [x * y] on two [float64]. *)
Definition mul (x y : spec_float) : spec_float := SFmul prec emax x y.

(** The number a float denotes; the infinities and NaN denote none. *)
Definition value (f : spec_float) : option Q :=
  match f with
  | S754_zero _ => Some 0%Q
  | S754_finite s m e =>
    let magnitude := (inject_Z (Z.pos m) * (2 # 1) ^ e)%Q in
    Some (Qred (if s then - magnitude else magnitude))%Q
  | _ => None
  end.

(** The integer part of a float, the fraction dropped towards zero. *)
Definition truncate (f : spec_float) : option Z :=
  match f with
  | S754_zero _ => Some 0
  | S754_finite s m e =>
    let magnitude := if 0 <=? e then Z.pos m * 2 ^ e else Z.pos m / 2 ^ (- e) in
    Some (if s then - magnitude else magnitude)
  | _ => None
  end.

Record Machine : Type := mkMachine {
  math_Pow : spec_float -> spec_float -> spec_float;
  out_of_range : spec_float -> Z
}.

(** [int64(f)], and so [time.Duration(f)]: the integer part when an [int64]
    holds it, else whatever [int64] the machine leaves. *)
Definition int64_of_float64 (m : Machine) (f : spec_float) : Z :=
  match truncate f with
  | Some z =>
    if (Int64.MinInt64 <=? z) && (z <=? Int64.MaxInt64) then z
    else Int64.wrap (out_of_range m f)
  | None => Int64.wrap (out_of_range m f)
  end.

(** The first line of [FullJitter]. *)
Definition exponential (m : Machine) (attemptIndex baseDelay : Z)
    (multiplier : spec_float) : Z :=
  int64_of_float64 m
    (mul (float64_of_int64 baseDelay)
         (math_Pow m multiplier (float64_of_int64 attemptIndex))).

(** [x] multiplied by itself [n] times, each product rounded. *)
Fixpoint repeated_product (x : spec_float) (n : nat) : spec_float :=
  match n with
  | O => float64_of_int64 1
  | S n' => mul x (repeated_product x n')
  end.

End IEEE.


(** ** Ports and the transfer use case *)

(** [ports.PaymentGateway]: the status and error of one call, [None] when
    the call does not return. *)
Class PaymentGateway (G : Type) : Type :=
  gateway_SendTransfer : G -> string -> string -> Z -> option (string * option error).

#[export] Instance FakeSTP_gateway : PaymentGateway Ambient :=
  fun amb fromID toID cents =>
    match FakeSTP.SendTransfer amb fromID toID cents with
    | Some (FakeSTP.Returns status err, _) => Some (status, err)
    | _ => None
    end.

Record TransferInput : Type := mkTransferInput {
  FromID : string;
  ToID : string;
  Cents : Z
}.

Record TransferOutput : Type := mkTransferOutput {
  FromBalance : Z;
  ToBalance : Z
}.

Definition no_output : TransferOutput := mkTransferOutput 0 0.

Definition call_gateway {G} `{PaymentGateway G} (g : G)
    (fromID toID : string) (cents : Z) : M (string * option error) :=
  record (CallSendTransfer fromID toID cents) ;;;
  match gateway_SendTransfer g fromID toID cents with
  | Some r => ret r
  | None => panic
  end.

(** [LocalBus.Publish] logs and returns nil. *)
Definition Publish (topic : string) (fromID toID : string) (cents : Z)
  : M (option error) :=
  record (CallPublish topic fromID toID cents) ;;; ret None.

Definition Execute {G} `{PaymentGateway G} (g : G) (input : TransferInput)
  : M (TransferOutput * option error) :=
  r <- ByID (FromID input) ;;
  let '(fromAccount, err) := r in
  match err with Some e => ret (no_output, Some e) | None =>
  r <- ByID (ToID input) ;;
  let '(toAccount, err) := r in
  match err with Some e => ret (no_output, Some e) | None =>
  err <- DebitAt fromAccount (Cents input) ;;
  match err with Some e => ret (no_output, Some e) | None =>
  err <- CreditAt toAccount (Cents input) ;;
  match err with Some e => ret (no_output, Some e) | None =>
  r <- call_gateway g (FromID input) (ToID input) (Cents input) ;;
  let '(status, err) := r in
  match err with Some e => ret (no_output, Some e) | None =>
  if negb (String.eqb status "OK") then ret (no_output, Some (ErrStpNotOk status))
  else
  err <- Save fromAccount ;;
  match err with Some e => ret (no_output, Some e) | None =>
  err <- Save toAccount ;;
  match err with Some e => ret (no_output, Some e) | None =>
  _ <- Publish "transfer.completed" (FromID input) (ToID input) (Cents input) ;;
  fromBalance <- BalanceAt fromAccount ;;
  toBalance <- BalanceAt toAccount ;;
  ret (mkTransferOutput fromBalance toBalance, None)
  end end end end end end end.

(** What the store holds for an id. *)
Definition stored (w : World) (id : string) : option Account :=
  match data w !! id with
  | Some l => heap w !! l
  | None => None
  end.

Definition stored_balance (w : World) (id : string) : option Z :=
  balance <$> stored w id.

(** ** Vocabulary of the properties *)

(** A call on an account: [Credit(cents)] or [Debit(cents)]. *)
Inductive op : Type :=
| OpCredit (cents : Z)
| OpDebit (cents : Z).

Definition amount (o : op) : Z :=
  match o with OpCredit c => c | OpDebit c => c end.

Definition step (a : Account) (o : op) : Account * option error :=
  match o with
  | OpCredit c => Credit a c
  | OpDebit c => Debit a c
  end.

(** The account after a sequence of calls. *)
Fixpoint run (a : Account) (ops : list op) : Account :=
  match ops with
  | [] => a
  | o :: rest => run (fst (step a o)) rest
  end.

(** The balance after each call of a sequence. *)
Fixpoint trail (a : Account) (ops : list op) : list Z :=
  match ops with
  | [] => []
  | o :: rest => balance (fst (step a o)) :: trail (fst (step a o)) rest
  end.

Definition succeeded (a : Account) (o : op) : bool :=
  match snd (step a o) with None => true | Some _ => false end.

(** Sum (in the integers) of the amounts of the credits that returned nil. *)
Fixpoint applied_credits (a : Account) (ops : list op) : Z :=
  match ops with
  | [] => 0
  | o :: rest =>
    (match o with
     | OpCredit c => if succeeded a o then c else 0
     | OpDebit _ => 0
     end) + applied_credits (fst (step a o)) rest
  end.

(** Sum (in the integers) of the amounts of the debits that returned nil. *)
Fixpoint applied_debits (a : Account) (ops : list op) : Z :=
  match ops with
  | [] => 0
  | o :: rest =>
    (match o with
     | OpCredit _ => 0
     | OpDebit c => if succeeded a o then c else 0
     end) + applied_debits (fst (step a o)) rest
  end.

(** The same call through a pointer. *)
Definition stepAt (p : option loc) (o : op) : M (option error) :=
  match o with
  | OpCredit c => CreditAt p c
  | OpDebit c => DebitAt p c
  end.

(** ASCII white space: tab, line feed, vertical tab, form feed, carriage
    return and space. *)
Definition is_whitespace (c : ascii) : bool :=
  let b := GoString.byte_of c in ((9 <=? b) && (b <=? 13)) || (b =? 32).

(** Removal of all white space, as the phrase "after whitespace removal"
    reads; [NewCLABE] itself uses [GoString.remove_spaces]. *)
Fixpoint whitespace_removed (s : string) : string :=
  match s with
  | EmptyString => EmptyString
  | String c rest =>
    if is_whitespace c then whitespace_removed rest
    else String c (whitespace_removed rest)
  end.

(** Exactly 18 bytes, each an ASCII digit. *)
Definition eighteen_digits (s : string) : bool :=
  (GoString.len s =? 18) && forallb is_digit (GoString.bytes s).

Definition accepted (r : CLABE * option error) : bool :=
  match snd r with None => true | Some _ => false end.

(** Every pointer the repository holds names a cell of the heap. *)
Definition well_formed (w : World) : Prop :=
  forall id l, data w !! id = Some l -> (l < length (heap w))%nat.

(** Every stored account is filed under its own [ID]. *)
Definition keyed_by_id (w : World) : Prop :=
  forall id a, stored w id = Some a -> ID a = id.

Definition is_save (c : call) : bool :=
  match c with CallSave _ => true | _ => false end.

Definition is_send (c : call) : bool :=
  match c with CallSendTransfer _ _ _ => true | _ => false end.

(** ** Accessors, identifiers and the other use cases *)

Definition HolderName (a : Account) : string := holderName a.

(** [CLABE.String]. *)
Definition CLABE_String (c : CLABE) : string := value c.

(** [Account.CLABE]. *)
Definition Account_CLABE (a : Account) : string := CLABE_String (clabe a).

(** [NewAccount] as the use case sees it: the account is a new cell and the
    result is a pointer to it, or nil with the error. *)
Definition NewAccountPtr (id : string) (holder : string) (c : CLABE)
  : M (option loc * option error) :=
  match NewAccount id holder c with
  | (Some a, err) => p <- alloc a ;; ret (p, err)
  | (None, err) => ret (None, err)
  end.

Module hex.

Definition hextable : string := "0123456789abcdef".

(** [hextable[n]]. *)
Definition digit (n : Z) : ascii :=
  match String.get (Z.to_nat n) hextable with
  | Some c => c
  | None => "000"%char
  end.

(** [hex.EncodeToString]: two digits per byte, high nibble first. *)
Fixpoint EncodeToString (src : list Z) : string :=
  match src with
  | [] => EmptyString
  | b :: rest =>
    String (digit (Z.shiftr b 4))
      (String (digit (Z.land b 15)) (EncodeToString rest))
  end.

End hex.

(** [id.New]: [entropy] is what [rand.Read] left in the 12-byte buffer, or
    [None] when it failed, in which case [New] panics. *)
Definition id_New (entropy : option (list Z)) : option string :=
  match entropy with
  | Some buf => Some (hex.EncodeToString buf)
  | None => None
  end.

Record DepositInput : Type := mkDepositInput {
  DepositInput_AccountID : string;
  DepositInput_Cents : Z
}.

Record DepositOutput : Type := mkDepositOutput {
  DepositOutput_ID : string;
  DepositOutput_Balance : Z
}.

Definition no_deposit : DepositOutput := mkDepositOutput "" 0.

(** [DepositMoneyUseCase.Execute]. *)
Definition DepositMoney_Execute (input : DepositInput)
  : M (DepositOutput * option error) :=
  r <- ByID (DepositInput_AccountID input) ;;
  let '(account, err) := r in
  match err with Some e => ret (no_deposit, Some e) | None =>
  err <- CreditAt account (DepositInput_Cents input) ;;
  match err with Some e => ret (no_deposit, Some e) | None =>
  err <- Save account ;;
  match err with Some e => ret (no_deposit, Some e) | None =>
  a <- load account ;;
  ret (mkDepositOutput (ID a) (Balance a), None)
  end end end.

Record OpenAccountInput : Type := mkOpenAccountInput {
  OpenAccountInput_HolderName : string;
  OpenAccountInput_CLABE : string
}.

Record OpenAccountOutput : Type := mkOpenAccountOutput {
  OpenAccountOutput_ID : string;
  OpenAccountOutput_HolderName : string;
  OpenAccountOutput_CLABE : string;
  OpenAccountOutput_Balance : Z
}.

Definition no_account : OpenAccountOutput := mkOpenAccountOutput "" "" "" 0.

(** [OpenAccountUseCase.Execute]; [entropy] is what [id.New] will read. *)
Definition OpenAccount_Execute (entropy : option (list Z))
    (input : OpenAccountInput) : M (OpenAccountOutput * option error) :=
  let '(clabe0, err) := NewCLABE (OpenAccountInput_CLABE input) in
  match err with Some e => ret (no_account, Some e) | None =>
  match id_New entropy with None => panic | Some newID =>
  r <- NewAccountPtr newID (OpenAccountInput_HolderName input) clabe0 ;;
  let '(account, err) := r in
  match err with Some e => ret (no_account, Some e) | None =>
  err <- Create account ;;
  match err with Some e => ret (no_account, Some e) | None =>
  a <- load account ;;
  ret (mkOpenAccountOutput (ID a) (HolderName a) (Account_CLABE a) (Balance a),
       None)
  end end end end.

(** ** The HTTP adapter's error mapping *)

Definition StatusBadRequest : Z := 400.
Definition StatusUnprocessableEntity : Z := 422.
Definition StatusInternalServerError : Z := 500.

(** [API.mapDomainErr]: the status code and the message handed to
    [httpx.WriteError], and whether the error was logged as unexpected. The
    messages of the four domain errors are the texts they were built with. *)
Definition mapDomainErr (err : error) : Z * string * bool :=
  match err with
  | ErrInvalidAmount =>
    (StatusBadRequest, "invalid amount: must be > 0", false)
  | ErrInsufficientFund =>
    (StatusUnprocessableEntity, "insufficient funds", false)
  | ErrInvalidCLABE =>
    (StatusUnprocessableEntity, "invalid CLABE: must be 18 digits", false)
  | ErrEmptyHolder =>
    (StatusUnprocessableEntity, "holder name cannot be empty", false)
  | _ => (StatusInternalServerError, "internal error", true)
  end.

(** One failed round of the rail client at attempt [i]: the attempt and the
    wait that follows it. *)
Definition failed_round (amb : Ambient) (i : Z) : list FakeSTP.rail_event :=
  match backoff.FullJitter (float_exponential amb) (jitter_draw (meets amb i))
          i FakeSTP.baseDelay FakeSTP.multiplier FakeSTP.maxDelay with
  | Some sleepDuration => [FakeSTP.Attempt i; FakeSTP.Wait i sleepDuration]
  | None => [FakeSTP.Attempt i]
  end.

(** [n] failed rounds in a row, from attempt [s] on. *)
Fixpoint failed_rounds (amb : Ambient) (s : Z) (n : nat)
  : list FakeSTP.rail_event :=
  match n with
  | O => []
  | S n' => failed_round amb s ++ failed_rounds amb (s + 1) n'
  end.

(** ** Routing below [/accounts/] *)

Module strings.

(** [s] without the leading [prefix], when it has it. *)
Fixpoint strip (prefix s : string) : option string :=
  match prefix, s with
  | EmptyString, _ => Some s
  | String p prefix', String c s' =>
    if Ascii.eqb p c then strip prefix' s' else None
  | String _ _, EmptyString => None
  end.

(** [strings.TrimPrefix]. *)
Definition TrimPrefix (s prefix : string) : string :=
  match strip prefix s with
  | Some rest => rest
  | None => s
  end.

(** The text before the first [sep] and the pieces after it. *)
Fixpoint cut (sep : ascii) (s : string) : string * list string :=
  match s with
  | EmptyString => (EmptyString, [])
  | String c rest =>
    let '(piece, pieces) := cut sep rest in
    if Ascii.eqb c sep then (EmptyString, piece :: pieces)
    else (String c piece, pieces)
  end.

(** [strings.Split(s, sep)] for a separator of one byte: never empty. *)
Definition Split (s : string) (sep : ascii) : list string :=
  let '(piece, pieces) := cut sep s in piece :: pieces.

End strings.

(** What [API.handleAccountDetail] does with a request. *)
Inductive account_route : Type :=
| AnswerMissingID                  (* 400 "missing id" *)
| CallGetAccount (accountID : string)
| CallDeposit (accountID : string)
| AnswerRouteNotFound.             (* 404 "route not found" *)

(** [API.handleAccountDetail], on the URL path and the method. *)
Definition handleAccountDetail (urlPath method : string) : account_route :=
  let path := strings.TrimPrefix urlPath "/accounts/" in
  let parts := strings.Split path "/" in
  let accountID := match parts with p :: _ => p | [] => EmptyString end in
  if String.eqb accountID "" then AnswerMissingID
  else if (length parts =? 1)%nat && String.eqb method "GET"
  then CallGetAccount accountID
  else if (length parts =? 2)%nat
          && String.eqb (match parts with _ :: p :: _ => p | _ => EmptyString end)
                        "deposit"
          && String.eqb method "POST"
  then CallDeposit accountID
  else AnswerRouteNotFound.

(** ** Requests served one after another *)

(** A call of one of the three use cases, with what its surroundings will
    do: the entropy [id.New] reads, resp. the rail's ambient. *)
Inductive request : Type :=
| ReqOpenAccount (entropy : option (list Z)) (input : OpenAccountInput)
| ReqDeposit (input : DepositInput)
| ReqTransfer (amb : Ambient) (input : TransferInput).

(** The world after a request; [None] when the use case panics. *)
Definition serve (r : request) (w : World) : option World :=
  match r with
  | ReqOpenAccount entropy input => snd <$> OpenAccount_Execute entropy input w
  | ReqDeposit input => snd <$> DepositMoney_Execute input w
  | ReqTransfer amb input => snd <$> Execute amb input w
  end.

Fixpoint serve_all (rs : list request) (w : World) : option World :=
  match rs with
  | [] => Some w
  | r :: rest =>
    match serve r w with
    | Some w' => serve_all rest w'
    | None => None
    end
  end.

(** ** Sample surroundings and stores *)

(** A floating-point stage that is exact: the integer part of
    [baseDelay * multiplier ^ attemptIndex]. With the constants of the rail
    client every product is a whole number below [2^53], so this is what
    IEEE-754 arithmetic yields there. *)
Definition exact_fpu (attemptIndex baseDelay : Z) (multiplier : float64) : Z :=
  Qfloor (inject_Z baseDelay * multiplier ^ attemptIndex)%Q.


(** A machine for the examples. Its [math.Pow] is right on whole exponents
    [>= 0] as long as the powers of the base are floats, as those of 2.0 are;
    for a float that no [int64] holds its conversion leaves [MinInt64], as
    the amd64 instruction does. *)
Definition sample_machine : IEEE.Machine :=
  IEEE.mkMachine
    (fun x y =>
       match IEEE.truncate y with
       | Some k => if 0 <=? k then IEEE.repeated_product x (Z.to_nat k)
                   else S754_nan
       | None => S754_nan
       end)
    (fun _ => Int64.MinInt64).

(** Every attempt succeeds. *)
Definition rail_up : Ambient :=
  mkAmbient exact_fpu (fun _ => mkOutcome true 0 false).

(** Every attempt fails and nobody cancels. *)
Definition rail_down : Ambient :=
  mkAmbient exact_fpu (fun _ => mkOutcome false 12345678901 false).

(** The first two attempts fail, the third succeeds. *)
Definition rail_flaky : Ambient :=
  mkAmbient exact_fpu (fun i => mkOutcome (2 <=? i) 987654321 false).

Definition sample_account (id : string) (cents : Z) : Account :=
  mkAccount id "Alice" (mkCLABE "032180000118359719") cents.

(** Account "A" with 10000 cents and account "B" with none. *)
Definition sample_bank : World :=
  mkWorld [sample_account "A" 10000; sample_account "B" 0]
          (<["A" := 0%nat]> (<["B" := 1%nat]> ∅)) [].

(** Account "A" holding the largest [int64]. *)
Definition full_bank : World :=
  mkWorld [sample_account "A" Int64.MaxInt64] (<["A" := 0%nat]> ∅) [].

(** * Properties *)

(** ** Machine integers and strings *)

Lemma wrap_in_range z : Int64.in_range (Int64.wrap z).
Proof.
  unfold Int64.in_range, Int64.wrap, Int64.MinInt64, Int64.MaxInt64.
  pose proof (Z.mod_pos_bound (z + 2 ^ 63) (2 ^ 64) ltac:(lia)). lia.
Qed.

Lemma wrap_id z : Int64.in_range z -> Int64.wrap z = z.
Proof.
  unfold Int64.in_range, Int64.wrap, Int64.MinInt64, Int64.MaxInt64. intros Hz.
  rewrite Z.mod_small by lia. lia.
Qed.

Ltac bool_to_Z :=
  repeat match goal with
  | H : _ && _ = true |- _ => apply andb_true_iff in H; destruct H
  | H : _ && _ = false |- _ => apply andb_false_iff in H; destruct H
  | H : _ || _ = true |- _ => apply orb_true_iff in H; destruct H
  | H : _ || _ = false |- _ => apply orb_false_iff in H; destruct H
  | H : (_ <=? _) = true |- _ => apply Z.leb_le in H
  | H : (_ <=? _) = false |- _ => apply Z.leb_gt in H
  | H : (_ <? _) = true |- _ => apply Z.ltb_lt in H
  | H : (_ <? _) = false |- _ => apply Z.ltb_ge in H
  | H : (_ >? _) = true |- _ => rewrite Z.gtb_ltb in H
  | H : (_ >? _) = false |- _ => rewrite Z.gtb_ltb in H
  | H : (_ =? _) = true |- _ => apply Z.eqb_eq in H
  | H : (_ =? _) = false |- _ => apply Z.eqb_neq in H
  end.

(** A byte outside ASCII never starts a rune in ['0'..'9']. *)
Lemma decode_rune_non_ascii b rest :
  128 <= b -> 57 < fst (GoString.decode_rune (b :: rest)).
Proof.
  intros Hb. unfold GoString.decode_rune, GoString.is_cont, GoString.RuneError.
  repeat case_match; simpl; bool_to_Z; subst; try lia.
Qed.

Lemma decode_rune_ascii b rest :
  b < 128 -> GoString.decode_rune (b :: rest) = (b, 1%nat).
Proof.
  intros Hb. unfold GoString.decode_rune.
  destruct (b <? 128) eqn:E; [reflexivity | bool_to_Z; lia].
Qed.

(** Ranging over runes and looking at bytes agree on "all digits". *)
Lemma all_digit_runes_bytes bs :
  all_digit_runes (GoString.runes_from 0 bs) = forallb is_digit bs.
Proof.
  induction bs as [|b rest IH]; [reflexivity|].
  destruct (Z.lt_ge_cases b 128) as [Hlt|Hge].
  - unfold GoString.runes_from; fold GoString.runes_from.
    rewrite decode_rune_ascii by assumption. simpl.
    rewrite IH. unfold is_digit.
    destruct ((b <? 48) || (b >? 57)); reflexivity.
  - pose proof (decode_rune_non_ascii b rest Hge) as Hr.
    unfold GoString.runes_from; fold GoString.runes_from.
    destruct (GoString.decode_rune (b :: rest)) as [r w]. simpl in *.
    unfold is_digit.
    replace (r >? 57) with true by (symmetry; apply Z.gtb_lt; lia).
    replace (b >? 57) with true by (symmetry; apply Z.gtb_lt; lia).
    rewrite !orb_true_r. reflexivity.
Qed.

(** ** Account numbers *)

(** C9 (as amended). [NewCLABE] accepts exactly the inputs that, once every
    space character (U+0020, and no other white space) is removed, consist of
    exactly 18 ASCII digits; it then returns that digit string, and returns
    [ErrInvalidCLABE] with the zero value for every other input. In
    particular "032180000118359719" is accepted and "12345" is rejected. *)
Theorem NewCLABE_eighteen_digits_after_spaces :
  (forall raw,
     NewCLABE raw =
     if eighteen_digits (GoString.remove_spaces raw)
     then (mkCLABE (GoString.remove_spaces raw), None)
     else (mkCLABE "", Some ErrInvalidCLABE))
  /\ NewCLABE "032180000118359719" = (mkCLABE "032180000118359719", None)
  /\ NewCLABE "12345" = (mkCLABE "", Some ErrInvalidCLABE).
Proof.
  split; [|split; reflexivity].
  intros raw. unfold NewCLABE, eighteen_digits, GoString.runes.
  rewrite all_digit_runes_bytes.
  destruct (GoString.len (GoString.remove_spaces raw) =? 18); simpl;
    [destruct (forallb _ _)|]; reflexivity.
Qed.

(** C9 (counterexample). A tab followed by 18 digits consists of exactly 18
    ASCII digits after white space is removed, yet [NewCLABE] rejects it:
    only spaces are stripped. *)
Lemma NewCLABE_rejects_tabbed_digits :
  let raw := String (ascii_of_nat 9) "032180000118359719" in
  eighteen_digits (whitespace_removed raw) = true
  /\ NewCLABE raw = (mkCLABE "", Some ErrInvalidCLABE)
  /\ accepted (NewCLABE raw) <> eighteen_digits (whitespace_removed raw).
Proof. vm_compute. repeat split; congruence. Qed.

(** ** Balance rules *)

Lemma Credit_rejects a cents :
  cents <= 0 -> Credit a cents = (a, Some ErrInvalidAmount).
Proof.
  intros Hc. unfold Credit.
  replace (cents <=? 0) with true by (symmetry; apply Z.leb_le; lia).
  reflexivity.
Qed.

Lemma Debit_rejects a cents :
  cents <= 0 -> Debit a cents = (a, Some ErrInvalidAmount).
Proof.
  intros Hc. unfold Debit.
  replace (cents <=? 0) with true by (symmetry; apply Z.leb_le; lia).
  reflexivity.
Qed.

Lemma Debit_insufficient a cents :
  0 <= balance a -> cents <= Int64.MaxInt64 -> balance a < cents ->
  Debit a cents = (a, Some ErrInsufficientFund).
Proof.
  intros Hb Hc Hlt. unfold Debit, Int64.sub.
  replace (cents <=? 0) with false by (symmetry; apply Z.leb_gt; lia).
  rewrite wrap_id
    by (unfold Int64.in_range, Int64.MinInt64, Int64.MaxInt64 in *; lia).
  replace (balance a - cents <? 0) with true by (symmetry; apply Z.ltb_lt; lia).
  reflexivity.
Qed.

(** A result below [MinInt64] comes back [2^64] higher. *)
Lemma wrap_below z :
  - 2 ^ 64 <= z + 2 ^ 63 < 0 -> Int64.wrap z = z + 2 ^ 64.
Proof.
  intros Hz. unfold Int64.wrap.
  rewrite <- (Z.mod_add (z + 2 ^ 63) 1 (2 ^ 64)) by lia.
  rewrite Z.mod_small by lia. lia.
Qed.

(** The test [a.balance-cents < 0] of [Debit], read on the numbers: the
    amount is above the balance and the difference still fits an [int64]. *)
Lemma sub_negative b cents :
  Int64.in_range b -> Int64.in_range cents -> 0 < cents ->
  Int64.sub b cents < 0 <-> b < cents /\ Int64.MinInt64 <= b - cents.
Proof.
  unfold Int64.in_range, Int64.sub, Int64.MinInt64, Int64.MaxInt64.
  intros Hb Hc Hpos.
  destruct (Z_lt_le_dec (b - cents) (- 2 ^ 63)) as [Hlow|Hfit].
  - rewrite wrap_below by lia. lia.
  - rewrite wrap_id
      by (unfold Int64.in_range, Int64.MinInt64, Int64.MaxInt64; lia).
    lia.
Qed.

(** The error of [Debit], by the two tests of its body. *)
Lemma Debit_error a cents :
  snd (Debit a cents)
  = if cents <=? 0 then Some ErrInvalidAmount
    else if Int64.sub (balance a) cents <? 0 then Some ErrInsufficientFund
    else None.
Proof.
  unfold Debit. destruct (cents <=? 0); [reflexivity|].
  destruct (Int64.sub (balance a) cents <? 0); reflexivity.
Qed.

Lemma Credit_error a cents :
  snd (Credit a cents) = if cents <=? 0 then Some ErrInvalidAmount else None.
Proof. unfold Credit. destruct (cents <=? 0); reflexivity. Qed.

(** For a positive amount, [Debit] returns [ErrInsufficientFund] exactly when
    the amount is above the balance and the difference fits an [int64]. *)
Lemma Debit_insufficient_iff a cents :
  Int64.in_range (balance a) -> Int64.in_range cents -> 0 < cents ->
  snd (Debit a cents) = Some ErrInsufficientFund
  <-> balance a < cents /\ Int64.MinInt64 <= balance a - cents.
Proof.
  intros Hb Hc Hpos. rewrite Debit_error.
  replace (cents <=? 0) with false by (symmetry; apply Z.leb_gt; lia).
  rewrite <- (sub_negative (balance a) cents Hb Hc Hpos).
  destruct (Int64.sub (balance a) cents <? 0) eqn:E; bool_to_Z.
  - split; [intros _; exact E | reflexivity].
  - split; [discriminate | lia].
Qed.

(** When the difference falls below [MinInt64] the test of [Debit] sees a
    positive number: the debit goes through and the balance comes out
    [2^64] higher than the difference. *)
Lemma Debit_wraps a cents :
  Int64.in_range (balance a) -> Int64.in_range cents -> 0 < cents ->
  balance a - cents < Int64.MinInt64 ->
  Debit a cents = (set_balance a (balance a - cents + 2 ^ 64), None).
Proof.
  unfold Int64.in_range, Int64.MinInt64, Int64.MaxInt64.
  intros Hb Hc Hpos Hlow. unfold Debit, Int64.sub.
  replace (cents <=? 0) with false by (symmetry; apply Z.leb_gt; lia).
  rewrite wrap_below by lia.
  replace (balance a - cents + 2 ^ 64 <? 0) with false
    by (symmetry; apply Z.ltb_ge; lia).
  reflexivity.
Qed.

(** A credit or a debit of an amount [<= 0] returns [ErrInvalidAmount]
    and leaves the account as it was; a debit of more than a non-negative
    balance returns [ErrInsufficientFund] and leaves the account as it
    was. *)
Theorem amount_rules :
  (forall (a : Account) (cents : Z), cents <= 0 ->
     Credit a cents = (a, Some ErrInvalidAmount)
     /\ Debit a cents = (a, Some ErrInvalidAmount))
  /\ (forall (a : Account) (cents : Z),
        0 <= balance a -> cents <= Int64.MaxInt64 -> balance a < cents ->
        Debit a cents = (a, Some ErrInsufficientFund)).
Proof.
  split.
  - intros a cents Hc. split; [apply Credit_rejects | apply Debit_rejects]; exact Hc.
  - exact Debit_insufficient.
Qed.

Lemma amount_rules_witness :
  let a := mkAccount "acc-1" "Alice" (mkCLABE "032180000118359719") 500 in
  (Credit a (-3) = (a, Some ErrInvalidAmount)
   /\ Debit a 0 = (a, Some ErrInvalidAmount))
  /\ Debit a 600 = (a, Some ErrInsufficientFund).
Proof.
  intros a. split.
  - split.
    + apply (proj1 amount_rules a (-3)). lia.
    + apply (proj1 amount_rules a 0). lia.
  - apply (proj2 amount_rules a 600); unfold Int64.MaxInt64; simpl; lia.
Defined.

Lemma step_balance_bounds a o :
  Int64.in_range (amount o) -> 0 <= balance a ->
  balance a
  + (match o with OpCredit c => if succeeded a o then c else 0 | OpDebit _ => 0 end)
    <= Int64.MaxInt64 ->
  0 <= balance (fst (step a o))
  /\ balance (fst (step a o)) =
     balance a
     + (match o with OpCredit c => if succeeded a o then c else 0 | OpDebit _ => 0 end)
     - (match o with OpCredit _ => 0 | OpDebit c => if succeeded a o then c else 0 end)
  /\ 0 <= (match o with OpCredit _ => 0 | OpDebit c => if succeeded a o then c else 0 end).
Proof.
  unfold Int64.in_range, Int64.MinInt64, Int64.MaxInt64.
  destruct o as [c|c]; unfold succeeded, step, Credit, Debit, Int64.add, Int64.sub;
    simpl; intros Hc Hb Hsum.
  - destruct (c <=? 0) eqn:Ec; simpl in *; [lia|]. bool_to_Z.
    rewrite wrap_id
      by (unfold Int64.in_range, Int64.MinInt64, Int64.MaxInt64; lia). lia.
  - destruct (c <=? 0) eqn:Ec; simpl in *; [lia|]. bool_to_Z.
    rewrite !wrap_id
      by (unfold Int64.in_range, Int64.MinInt64, Int64.MaxInt64; lia).
    destruct (balance a - c <? 0) eqn:El; simpl; bool_to_Z; lia.
Qed.

Lemma applied_credits_nonneg a ops : 0 <= applied_credits a ops.
Proof.
  revert a. induction ops as [|o rest IH]; intros a; simpl; [lia|].
  specialize (IH (fst (step a o))).
  destruct o as [c|c]; [|lia].
  unfold succeeded, step, Credit in *.
  destruct (c <=? 0) eqn:Ec; simpl in *; bool_to_Z; lia.
Qed.

(** X3. Below the [int64] ceiling the ledger equation and the invariant hold:
    if the balance at the start is non-negative and the credits that are
    applied keep it within [MaxInt64], the balance after the sequence is the
    start balance plus applied credits minus applied debits, and no balance
    on the way is negative. *)
Lemma ledger_below_ceiling ops : forall a,
  Forall (fun o => Int64.in_range (amount o)) ops ->
  0 <= balance a ->
  balance a + applied_credits a ops <= Int64.MaxInt64 ->
  balance (run a ops) = balance a + applied_credits a ops - applied_debits a ops
  /\ Forall (fun b => 0 <= b) (trail a ops).
Proof.
  induction ops as [|o rest IH]; intros a Hops Hb Hsum; simpl in *.
  - split; [lia | constructor].
  - inversion Hops as [|? ? Ho Hrest]; subst.
    pose proof (applied_credits_nonneg (fst (step a o)) rest) as Hnn.
    destruct (step_balance_bounds a o Ho Hb) as (Hb' & Heq & Hdb).
    { destruct o; lia. }
    destruct (IH (fst (step a o)) Hrest Hb') as [Hrun Htrail]; [lia|].
    split; [lia | constructor; assumption].
Qed.

(** C5 (the code at the failing input). An account fresh from [NewAccount]
    takes [Credit(MaxInt64)] and then [Credit(1)]: both return nil, the
    credits applied sum to [2^63], and the balance wraps to [MinInt64], which
    is negative. *)
Theorem credit_overflow_goes_negative :
  let ops := [OpCredit Int64.MaxInt64; OpCredit 1] in
  exists a0,
    NewAccount "acc-1" "Alice" (mkCLABE "032180000118359719") = (Some a0, None)
    /\ Forall (fun o => Int64.in_range (amount o)) ops
    /\ applied_credits a0 ops - applied_debits a0 ops = 2 ^ 63
    /\ balance (run a0 ops) = Int64.MinInt64
    /\ trail a0 ops = [Int64.MaxInt64; Int64.MinInt64]
    /\ balance (run a0 ops) < 0.
Proof.
  eexists. split; [reflexivity|].
  split; [repeat constructor; vm_compute; congruence|].
  repeat split; vm_compute; congruence.
Qed.

(** C6 (the code at the failing input). An account fresh from [NewAccount]
    takes [Credit(MaxInt64)] and [Credit(1)], both returning nil, which leaves
    the balance [MinInt64]. There [Debit(1)] asks for more than the balance,
    yet it returns nil, not [ErrInsufficientFund], and the balance becomes
    [MaxInt64]: the difference [MinInt64 - 1] wraps to a positive number and
    passes the test [a.balance-cents < 0]. *)
Theorem debit_below_floor_wraps :
  exists a0,
    NewAccount "acc-1" "Alice" (mkCLABE "032180000118359719") = (Some a0, None)
    /\ let a := run a0 [OpCredit Int64.MaxInt64; OpCredit 1] in
       balance a = Int64.MinInt64
       /\ Int64.in_range 1
       /\ balance a < 1
       /\ Debit a 1 = (set_balance a Int64.MaxInt64, None)
       /\ snd (Debit a 1) <> Some ErrInsufficientFund
       /\ balance (fst (Debit a 1)) <> balance a.
Proof.
  eexists. split; [reflexivity|].
  cbv zeta. split; [vm_compute; reflexivity|].
  split; [vm_compute; split; congruence|].
  split; [vm_compute; reflexivity|].
  split; [vm_compute; reflexivity|].
  split; vm_compute; congruence.
Qed.

(** ** Running computations on the world *)

Lemma bind_eq {A B} (m : M A) (k : A -> M B) w a w' :
  m w = Some (a, w') -> bind m k w = k a w'.
Proof. intros Hm. unfold bind. rewrite Hm. reflexivity. Qed.

(** Run the first computation of a sequence, its result given by [tac]. *)
Tactic Notation "run_step" "by" tactic3(tac) :=
  erewrite bind_eq by tac; cbv beta iota.
Tactic Notation "run_step" := run_step by reflexivity.

(** The heap is written [h ++ cells]: [h] holds what was there before a
    workflow started, [cells] what it has allocated since. *)

Lemma load_old h cells d c l a :
  h !! l = Some a ->
  load (Some l) (mkWorld (h ++ cells) d c) = Some (a, mkWorld (h ++ cells) d c).
Proof.
  intros Hl. unfold load. cbn [heap data calls].
  rewrite lookup_app_l by (eapply lookup_lt_Some; eassumption).
  rewrite Hl. reflexivity.
Qed.

Lemma load_new h cells d c i a :
  cells !! i = Some a ->
  load (Some (length h + i)%nat) (mkWorld (h ++ cells) d c)
  = Some (a, mkWorld (h ++ cells) d c).
Proof.
  intros Hi. unfold load. cbn [heap data calls].
  rewrite lookup_app_r by lia.
  replace (length h + i - length h)%nat with i by lia.
  rewrite Hi. reflexivity.
Qed.

Lemma store_new h cells d c i a :
  (i < length cells)%nat ->
  store (Some (length h + i)%nat) a (mkWorld (h ++ cells) d c)
  = Some (tt, mkWorld (h ++ <[i:=a]> cells) d c).
Proof.
  intros Hi. unfold store. cbn [heap data calls].
  rewrite decide_True by (rewrite length_app; lia).
  rewrite insert_app_r_alt by lia.
  replace (length h + i - length h)%nat with i by lia.
  reflexivity.
Qed.

Lemma alloc_new h cells d c a :
  alloc a (mkWorld (h ++ cells) d c)
  = Some (Some (length h + length cells)%nat, mkWorld (h ++ (cells ++ [a])) d c).
Proof.
  unfold alloc. cbn [heap data calls]. rewrite length_app, app_assoc. reflexivity.
Qed.

Lemma ByID_found h cells d c id l a :
  d !! id = Some l -> h !! l = Some a ->
  ByID id (mkWorld (h ++ cells) d c)
  = Some ((Some (length h + length cells)%nat, None),
          mkWorld (h ++ (cells ++ [a])) d (c ++ [CallByID id])).
Proof.
  intros Hd Hl. unfold ByID, cloneAccount.
  run_step.
  run_step by (unfold data_lookup; cbn [heap data calls]; rewrite Hd; reflexivity).
  run_step by (run_step by (apply load_old; eassumption); apply alloc_new).
  reflexivity.
Qed.

Lemma ByID_missing w id :
  data w !! id = None ->
  ByID id w
  = Some ((None, Some ErrNotFound),
          mkWorld (heap w) (data w) (calls w ++ [CallByID id])).
Proof.
  intros Hd. unfold ByID.
  run_step.
  run_step by (unfold data_lookup; cbn [heap data calls]; rewrite Hd; reflexivity).
  reflexivity.
Qed.

Lemma on_receiver_new method h cells d c i a :
  cells !! i = Some a ->
  on_receiver method (Some (length h + i)%nat) (mkWorld (h ++ cells) d c)
  = Some (snd (method a), mkWorld (h ++ <[i:=fst (method a)]> cells) d c).
Proof.
  intros Hi. unfold on_receiver.
  run_step by (apply load_new; eassumption).
  run_step by (apply store_new; eapply lookup_lt_Some; eassumption).
  reflexivity.
Qed.

Lemma Save_new h cells d c i a :
  cells !! i = Some a ->
  Save (Some (length h + i)%nat) (mkWorld (h ++ cells) d c)
  = Some (None,
          mkWorld (h ++ (cells ++ [a]))
                  (<[ID a := (length h + length cells)%nat]> d)
                  (c ++ [CallSave (Some (length h + i)%nat)])).
Proof.
  intros Hi. unfold Save, cloneAccount.
  run_step.
  run_step by (apply load_new; eassumption).
  run_step by (run_step by (apply load_new; eassumption); apply alloc_new).
  run_step.
  reflexivity.
Qed.

Lemma BalanceAt_new h cells d c i a :
  cells !! i = Some a ->
  BalanceAt (Some (length h + i)%nat) (mkWorld (h ++ cells) d c)
  = Some (balance a, mkWorld (h ++ cells) d c).
Proof.
  intros Hi. unfold BalanceAt.
  run_step by (apply load_new; eassumption).
  reflexivity.
Qed.

Lemma stored_old h cells d c c' id :
  (forall l, d !! id = Some l -> (l < length h)%nat) ->
  stored (mkWorld (h ++ cells) d c) id = stored (mkWorld h d c') id.
Proof.
  intros Hwf. unfold stored. cbn [heap data calls].
  destruct (d !! id) as [l|] eqn:Hd; [|reflexivity].
  apply lookup_app_l. auto.
Qed.

Lemma stored_some_inv w id a :
  stored w id = Some a ->
  exists l, data w !! id = Some l /\ heap w !! l = Some a.
Proof.
  unfold stored. destruct (data w !! id) as [l|]; [|discriminate].
  intros Hl. exists l. split; [reflexivity | assumption].
Qed.

Lemma with_no_cells w : w = mkWorld (heap w ++ []) (data w) (calls w).
Proof. destruct w. cbn [heap data calls]. rewrite app_nil_r. reflexivity. Qed.

(** ** The account store *)

Lemma Create_existing w l0 a l :
  heap w !! l0 = Some a -> data w !! ID a = Some l ->
  Create (Some l0) w
  = Some (Some ErrAlreadyExists,
          mkWorld (heap w) (data w) (calls w ++ [CallCreate (Some l0)])).
Proof.
  intros Hl0 Hd. unfold Create.
  run_step.
  run_step by (unfold load; cbn [heap data calls]; rewrite Hl0; reflexivity).
  run_step by (unfold data_lookup; cbn [heap data calls]; rewrite Hd; reflexivity).
  reflexivity.
Qed.

Lemma stepAt_new o h cells d c i a :
  cells !! i = Some a ->
  stepAt (Some (length h + i)%nat) o (mkWorld (h ++ cells) d c)
  = Some (snd (step a o), mkWorld (h ++ <[i:=fst (step a o)]> cells) d c).
Proof.
  intros Hi. destruct o as [cents|cents]; unfold stepAt, CreditAt, DebitAt, step.
  - exact (on_receiver_new (fun a => Credit a cents) h cells d c i a Hi).
  - exact (on_receiver_new (fun a => Debit a cents) h cells d c i a Hi).
Qed.

(** C10. [Create] with an id that is already present returns "already
    exists" and leaves heap and map as they were; [ByID] with an absent id
    returns "not found"; and when a caller credits or debits the snapshot
    that [ByID] handed out, the next [ByID] for the same id still hands out
    the account as stored. *)
Theorem store_contract :
  (forall w l0 a l,
     heap w !! l0 = Some a -> data w !! ID a = Some l ->
     exists w', Create (Some l0) w = Some (Some ErrAlreadyExists, w')
                /\ heap w' = heap w /\ data w' = data w)
  /\ (forall w id,
        data w !! id = None ->
        exists w', ByID id w = Some ((None, Some ErrNotFound), w')
                   /\ heap w' = heap w /\ data w' = data w)
  /\ (forall w id a o,
        well_formed w -> stored w id = Some a ->
        exists p w1 e w2 q w3,
          ByID id w = Some ((Some p, None), w1)
          /\ heap w1 !! p = Some a
          /\ stepAt (Some p) o w1 = Some (e, w2)
          /\ heap w2 !! p = Some (fst (step a o))
          /\ ByID id w2 = Some ((Some q, None), w3)
          /\ heap w3 !! q = Some a
          /\ stored w3 id = Some a).
Proof.
  split; [|split].
  - intros w l0 a l Hl0 Hd. eexists. split; [eapply Create_existing; eassumption|].
    split; reflexivity.
  - intros w id Hd. eexists. split; [apply ByID_missing; assumption|].
    split; reflexivity.
  - intros w id a o Hwf Hst.
    destruct (stored_some_inv _ _ _ Hst) as (l & Hd & Hl).
    destruct w as [h d c]. cbn [heap data calls] in *.
    pose proof (ByID_found h [] d c id l a Hd Hl) as H1.
    rewrite app_nil_r in H1. cbn [app length] in H1.
    pose proof (stepAt_new o h [a] d (c ++ [CallByID id]) 0 a eq_refl) as H2.
    cbn [insert list_insert] in H2.
    pose proof (ByID_found h [fst (step a o)] d (c ++ [CallByID id]) id l a Hd Hl)
      as H3.
    cbn [app length] in H3.
    do 6 eexists. split; [exact H1|].
    split; [cbn [heap]; rewrite lookup_app_r by lia;
            rewrite Nat.add_0_r, Nat.sub_diag; reflexivity|].
    split; [exact H2|].
    split; [cbn [heap]; rewrite lookup_app_r by lia;
            rewrite Nat.add_0_r, Nat.sub_diag; reflexivity|].
    split; [exact H3|].
    split.
    + cbn [heap]. rewrite lookup_app_r by lia.
      replace (length h + 1 - length h)%nat with 1%nat by lia. reflexivity.
    + rewrite (stored_old h _ d _ c); [exact Hst|].
      intros l' Hl'. exact (Hwf id l' Hl').
Qed.

(** ** The transfer workflow, run symbolically *)

Section Workflow.

Context {G : Type} `{PaymentGateway G}.

(** [Execute] when both ids are present: the result and the world after,
    case by case. [af] and [at'] are the stored source and destination. *)
Lemma Execute_both_found (g : G) (input : TransferInput) h d c lf lt af at' :
  d !! FromID input = Some lf -> h !! lf = Some af ->
  d !! ToID input = Some lt -> h !! lt = Some at' ->
  let cents := Cents input in
  let n := length h in
  let read := c ++ [CallByID (FromID input)] ++ [CallByID (ToID input)] in
  let sent := read ++ [CallSendTransfer (FromID input) (ToID input) cents] in
  let debited := fst (Debit af cents) in
  let credited := fst (Credit at' cents) in
  Execute g input (mkWorld h d c) =
  match snd (Debit af cents) with
  | Some e => Some ((no_output, Some e), mkWorld (h ++ [debited; at']) d read)
  | None =>
    match snd (Credit at' cents) with
    | Some e => Some ((no_output, Some e), mkWorld (h ++ [debited; credited]) d read)
    | None =>
      match gateway_SendTransfer g (FromID input) (ToID input) cents with
      | None => None
      | Some (status, Some e) =>
        Some ((no_output, Some e), mkWorld (h ++ [debited; credited]) d sent)
      | Some (status, None) =>
        if negb (String.eqb status "OK")
        then Some ((no_output, Some (ErrStpNotOk status)),
                   mkWorld (h ++ [debited; credited]) d sent)
        else Some ((mkTransferOutput (balance debited) (balance credited), None),
                   mkWorld (h ++ [debited; credited; debited; credited])
                     (<[ID credited := (n + 3)%nat]> (<[ID debited := (n + 2)%nat]> d))
                     (sent ++ [CallSave (Some (n + 0)%nat);
                               CallSave (Some (n + 1)%nat);
                               CallPublish "transfer.completed"
                                 (FromID input) (ToID input) cents]))
      end
    end
  end.
Proof.
  intros Hdf Hlf Hdt Hlt cents n read sent debited credited.
  subst cents n read sent debited credited.
  replace (mkWorld h d c) with (mkWorld (h ++ []) d c)
    by (rewrite app_nil_r; reflexivity).
  unfold Execute.
  run_step by (eapply ByID_found; eassumption). cbn [app length].
  run_step by (eapply ByID_found; eassumption). cbn [app length].
  unfold DebitAt, CreditAt.
  run_step by (apply on_receiver_new; reflexivity). cbn [insert list_insert].
  destruct (snd (Debit af (Cents input))) as [e|] eqn:Edeb.
  { unfold ret. cbn [heap data calls]. rewrite <- ?app_assoc. reflexivity. }
  run_step by (apply on_receiver_new; reflexivity). cbn [insert list_insert].
  destruct (snd (Credit at' (Cents input))) as [e|] eqn:Ecre.
  { unfold ret. cbn [heap data calls]. rewrite <- ?app_assoc. reflexivity. }
  unfold call_gateway.
  destruct (gateway_SendTransfer g (FromID input) (ToID input) (Cents input))
    as [[status [e|]]|] eqn:Egw.
  - run_step by (run_step; reflexivity).
    unfold ret. cbn [heap data calls]. rewrite <- ?app_assoc. reflexivity.
  - run_step by (run_step; reflexivity).
    destruct (negb (String.eqb status "OK")).
    { unfold ret. cbn [heap data calls]. rewrite <- ?app_assoc. reflexivity. }
    run_step by (apply Save_new; reflexivity). cbn [app length].
    run_step by (apply Save_new; reflexivity). cbn [app length].
    unfold Publish.
    run_step by (run_step; reflexivity).
    run_step by (apply BalanceAt_new; reflexivity).
    run_step by (apply BalanceAt_new; reflexivity).
    unfold ret. cbn [heap data calls]. rewrite <- ?app_assoc. reflexivity.
  - unfold bind, record, panic. reflexivity.
Qed.

End Workflow.

Lemma lookup_new {A} (h cells : list A) i :
  (h ++ cells) !! (length h + i)%nat = cells !! i.
Proof.
  rewrite lookup_app_r by lia. f_equal. lia.
Qed.

Lemma Debit_keeps_ID a cents : ID (fst (Debit a cents)) = ID a.
Proof. unfold Debit. repeat case_match; reflexivity. Qed.

Lemma Credit_keeps_ID a cents : ID (fst (Credit a cents)) = ID a.
Proof. unfold Credit. repeat case_match; reflexivity. Qed.

Lemma Debit_applied a cents :
  0 < cents -> cents <= balance a -> balance a <= Int64.MaxInt64 ->
  Debit a cents = (set_balance a (balance a - cents), None).
Proof.
  intros Hpos Hle Hmax. unfold Debit, Int64.sub.
  rewrite wrap_id
    by (unfold Int64.in_range, Int64.MinInt64, Int64.MaxInt64 in *; lia).
  replace (cents <=? 0) with false by (symmetry; apply Z.leb_gt; lia).
  replace (balance a - cents <? 0) with false by (symmetry; apply Z.ltb_ge; lia).
  reflexivity.
Qed.

Lemma Credit_applied a cents :
  0 < cents -> Int64.MinInt64 <= balance a ->
  balance a + cents <= Int64.MaxInt64 ->
  Credit a cents = (set_balance a (balance a + cents), None).
Proof.
  intros Hpos Hmin Hmax. unfold Credit, Int64.add.
  rewrite wrap_id
    by (unfold Int64.in_range, Int64.MinInt64, Int64.MaxInt64 in *; lia).
  replace (cents <=? 0) with false by (symmetry; apply Z.leb_gt; lia).
  reflexivity.
Qed.

(** The first attempt succeeding, the rail answers OK at once. *)
Lemma FakeSTP_first_attempt_ok amb fromID toID cents :
  rail_ok (meets amb 0) = true ->
  FakeSTP.SendTransfer amb fromID toID cents
  = Some (FakeSTP.Returns "OK" None, [FakeSTP.Attempt 0]).
Proof.
  intros Hok. unfold FakeSTP.SendTransfer. cbn. rewrite Hok. reflexivity.
Qed.

Section WorkflowProperties.

Context {G : Type} `{PaymentGateway G}.

Lemma Execute_source_missing (g : G) input w :
  data w !! FromID input = None ->
  Execute g input w
  = Some ((no_output, Some ErrNotFound),
          mkWorld (heap w) (data w) (calls w ++ [CallByID (FromID input)])).
Proof.
  intros Hd. unfold Execute.
  run_step by (apply ByID_missing; assumption). reflexivity.
Qed.

Lemma Execute_destination_missing (g : G) input h d c lf af :
  d !! FromID input = Some lf -> h !! lf = Some af ->
  d !! ToID input = None ->
  Execute g input (mkWorld h d c)
  = Some ((no_output, Some ErrNotFound),
          mkWorld (h ++ [af]) d
            (c ++ [CallByID (FromID input)] ++ [CallByID (ToID input)])).
Proof.
  intros Hdf Hlf Hdt.
  replace (mkWorld h d c) with (mkWorld (h ++ []) d c)
    by (rewrite app_nil_r; reflexivity).
  unfold Execute.
  run_step by (eapply ByID_found; eassumption). cbn [app length].
  run_step by (apply ByID_missing; assumption).
  unfold ret. cbn [heap data calls]. rewrite <- ?app_assoc. reflexivity.
Qed.

(** Whenever [Execute] returns an error, the map is untouched, the cells
    that were there are untouched, and [Save] was not called. *)
Lemma Execute_error_frame (g : G) input w out e w' :
  well_formed w ->
  Execute g input w = Some ((out, Some e), w') ->
  out = no_output
  /\ data w' = data w
  /\ (exists cells, heap w' = heap w ++ cells)
  /\ (exists extra, calls w' = calls w ++ extra
                    /\ forallb (fun c => negb (is_save c)) extra = true).
Proof.
  intros Hwf Hrun. destruct w as [h d c]. cbn [heap data calls] in *.
  destruct (d !! FromID input) as [lf|] eqn:Hdf.
  2:{ rewrite Execute_source_missing in Hrun by assumption.
      cbn [heap data calls] in Hrun. inversion Hrun; subst.
      cbn [heap data calls].
      repeat split; [exists []; rewrite app_nil_r; reflexivity|].
      eexists; split; reflexivity. }
  destruct (lookup_lt_is_Some_2 h lf (Hwf _ _ Hdf)) as [af Hlf].
  destruct (d !! ToID input) as [lt|] eqn:Hdt.
  2:{ erewrite Execute_destination_missing in Hrun by eassumption.
      inversion Hrun; subst. cbn [heap data calls].
      repeat split; [eexists; reflexivity|].
      eexists; split; reflexivity. }
  destruct (lookup_lt_is_Some_2 h lt (Hwf _ _ Hdt)) as [at' Hlt].
  rewrite (Execute_both_found g input h d c lf lt af at' Hdf Hlf Hdt Hlt) in Hrun.
  cbv zeta in Hrun.
  repeat case_match; inversion Hrun; subst; cbn [heap data calls];
    (repeat split; [eexists; reflexivity|]);
    rewrite <- ?app_assoc; eexists; split; reflexivity.
Qed.

Lemma frame_keeps_stored w w' :
  well_formed w -> data w' = data w ->
  (exists cells, heap w' = heap w ++ cells) ->
  forall id, stored w' id = stored w id.
Proof.
  intros Hwf Hd [cells Hh] id. destruct w as [h d c], w' as [h' d' c'].
  cbn [heap data calls] in *. subst.
  apply stored_old. intros l Hl. exact (Hwf id l Hl).
Qed.

End WorkflowProperties.

Section TransferClaims.

Context {G : Type} `{PaymentGateway G}.

(** C1. When the payment gateway answers with an error or with a status
    other than OK, [Execute] returns an error, [Save] is called on neither
    account, and the store holds for every id exactly what it held before;
    if the gateway was reached, the error returned is the gateway's own, or
    "stp not ok" with its status. *)
Theorem failed_payment_saves_nothing (g : G) input w status err :
  well_formed w ->
  gateway_SendTransfer g (FromID input) (ToID input) (Cents input)
  = Some (status, err) ->
  err <> None \/ status <> "OK" ->
  exists e w' extra,
    Execute g input w = Some ((no_output, Some e), w')
    /\ calls w' = calls w ++ extra
    /\ forallb (fun c => negb (is_save c)) extra = true
    /\ (existsb is_send extra = true ->
        e = match err with Some e' => e' | None => ErrStpNotOk status end)
    /\ data w' = data w
    /\ (forall id, stored w' id = stored w id)
    /\ (forall id, stored_balance w' id = stored_balance w id).
Proof.
  intros Hwf Hgw Hbad.
  assert (Hrun : exists e w' extra,
    Execute g input w = Some ((no_output, Some e), w')
    /\ calls w' = calls w ++ extra
    /\ (existsb is_send extra = true ->
        e = match err with Some e' => e' | None => ErrStpNotOk status end)).
  { destruct w as [h d c]. cbn [heap data calls] in *.
    destruct (d !! FromID input) as [lf|] eqn:Hdf.
    2:{ do 3 eexists. split; [apply Execute_source_missing; assumption|].
        split; [reflexivity | discriminate]. }
    destruct (lookup_lt_is_Some_2 h lf (Hwf _ _ Hdf)) as [af Hlf].
    destruct (d !! ToID input) as [lt|] eqn:Hdt.
    2:{ do 3 eexists. split; [eapply Execute_destination_missing; eassumption|].
        split; [reflexivity | discriminate]. }
    destruct (lookup_lt_is_Some_2 h lt (Hwf _ _ Hdt)) as [at' Hlt].
    rewrite (Execute_both_found g input h d c lf lt af at' Hdf Hlf Hdt Hlt).
    cbv zeta. rewrite Hgw.
    destruct (snd (Debit af (Cents input))) as [e1|];
      [do 3 eexists; split; [reflexivity|]; split; [reflexivity | discriminate]|].
    destruct (snd (Credit at' (Cents input))) as [e2|];
      [do 3 eexists; split; [reflexivity|]; split; [reflexivity | discriminate]|].
    destruct err as [e3|].
    - do 3 eexists. split; [reflexivity|]. cbn [calls].
      rewrite <- ?app_assoc. split; reflexivity.
    - destruct Hbad as [Hbad|Hbad]; [congruence|].
      apply String.eqb_neq in Hbad. rewrite Hbad. cbn [negb].
      do 3 eexists. split; [reflexivity|]. cbn [calls].
      rewrite <- ?app_assoc. split; reflexivity. }
  destruct Hrun as (e & w' & extra & Hrun & Hcalls & Hsent).
  destruct (Execute_error_frame g input w _ e w' Hwf Hrun)
    as (_ & Hdata & Hheap & (extra' & Hcalls' & Hnosave)).
  assert (extra' = extra) by (rewrite Hcalls in Hcalls'; eapply app_inv_head; eauto).
  subst extra'.
  pose proof (frame_keeps_stored w w' Hwf Hdata Hheap) as Hstored.
  exists e, w', extra. repeat split; try assumption.
  intros id. unfold stored_balance. rewrite Hstored. reflexivity.
Qed.


End TransferClaims.

Section PaidTransfers.

Context {G : Type} `{PaymentGateway G}.

(** [Execute] when both steps of the domain pass and the gateway says OK. *)
Lemma Execute_paid (g : G) input h d c lf lt af at' debited credited :
  d !! FromID input = Some lf -> h !! lf = Some af ->
  d !! ToID input = Some lt -> h !! lt = Some at' ->
  Debit af (Cents input) = (debited, None) ->
  Credit at' (Cents input) = (credited, None) ->
  gateway_SendTransfer g (FromID input) (ToID input) (Cents input)
  = Some ("OK", None) ->
  Execute g input (mkWorld h d c)
  = Some ((mkTransferOutput (balance debited) (balance credited), None),
          mkWorld (h ++ [debited; credited; debited; credited])
            (<[ID credited := (length h + 3)%nat]>
               (<[ID debited := (length h + 2)%nat]> d))
            (c ++ [CallByID (FromID input); CallByID (ToID input);
                   CallSendTransfer (FromID input) (ToID input) (Cents input);
                   CallSave (Some (length h + 0)%nat);
                   CallSave (Some (length h + 1)%nat);
                   CallPublish "transfer.completed"
                     (FromID input) (ToID input) (Cents input)])).
Proof.
  intros Hdf Hlf Hdt Hlt Hdeb Hcre Hgw.
  rewrite (Execute_both_found g input h d c lf lt af at' Hdf Hlf Hdt Hlt).
  cbv zeta. rewrite Hdeb, Hcre, Hgw. cbn [fst snd String.eqb negb].
  rewrite <- ?app_assoc. reflexivity.
Qed.

End PaidTransfers.

(** C3. Source with balance 10000, a different destination with balance 0,
    amount 5000, and a rail whose first attempt succeeds: [Execute] returns
    the balances 5000 and 5000 with a nil error, and afterwards the store
    holds balance 5000 for the source and 5000 for the destination. *)
Theorem transfer_5000_of_10000 (amb : Ambient) w idA idB accA accB :
  well_formed w -> idA <> idB ->
  stored w idA = Some accA -> stored w idB = Some accB ->
  ID accA = idA -> ID accB = idB ->
  balance accA = 10000 -> balance accB = 0 ->
  rail_ok (meets amb 0) = true ->
  exists w',
    Execute amb (mkTransferInput idA idB 5000) w
    = Some ((mkTransferOutput 5000 5000, None), w')
    /\ stored_balance w' idA = Some 5000
    /\ stored_balance w' idB = Some 5000.
Proof.
  intros Hwf Hne HsA HsB HidA HidB HbA HbB Hok.
  destruct (stored_some_inv _ _ _ HsA) as (lA & HdA & HlA).
  destruct (stored_some_inv _ _ _ HsB) as (lB & HdB & HlB).
  destruct w as [h d c]. cbn [heap data calls] in *.
  assert (Hdeb : Debit accA 5000 = (set_balance accA 5000, None)).
  { rewrite Debit_applied by (rewrite ?HbA; unfold Int64.MaxInt64; lia).
    rewrite HbA. reflexivity. }
  assert (Hcre : Credit accB 5000 = (set_balance accB 5000, None)).
  { rewrite Credit_applied
      by (rewrite ?HbB; unfold Int64.MinInt64, Int64.MaxInt64; lia).
    rewrite HbB. reflexivity. }
  assert (Hgw : gateway_SendTransfer amb idA idB 5000 = Some ("OK", None)).
  { unfold gateway_SendTransfer, FakeSTP_gateway.
    rewrite FakeSTP_first_attempt_ok by assumption. reflexivity. }
  rewrite (Execute_paid amb (mkTransferInput idA idB 5000) h d c lA lB accA accB
             _ _ HdA HlA HdB HlB Hdeb Hcre Hgw).
  cbn [set_balance ID balance FromID ToID Cents]. rewrite HidA, HidB.
  eexists. split; [reflexivity|].
  unfold stored_balance, stored. cbn [heap data calls]. split.
  - rewrite lookup_insert_ne by congruence. rewrite lookup_insert_eq.
    rewrite lookup_new. reflexivity.
  - rewrite lookup_insert_eq. rewrite lookup_new. reflexivity.
Qed.

(** X16. Self-transfer below the [int64] ceiling. Source and destination being
    the same stored account, with [0 < amount <= balance],
    [balance + amount <= MaxInt64] and an OK from the gateway: [ByID] is
    called twice and hands out two distinct
    snapshots, the first is debited and the second credited, the first is
    saved and then the second, so the store ends with balance plus amount;
    the balances returned are balance minus amount and balance plus amount,
    and both differ from the balance stored before. *)
Theorem self_transfer_overwrites_debit
    {G : Type} `{PaymentGateway G} (g : G) w id a cents :
  well_formed w ->
  stored w id = Some a -> ID a = id ->
  0 < cents -> cents <= balance a -> balance a + cents <= Int64.MaxInt64 ->
  gateway_SendTransfer g id id cents = Some ("OK", None) ->
  exists w' p q,
    Execute g (mkTransferInput id id cents) w
    = Some ((mkTransferOutput (balance a - cents) (balance a + cents), None), w')
    /\ p <> q
    /\ calls w' = calls w ++ [CallByID id; CallByID id;
                              CallSendTransfer id id cents;
                              CallSave (Some p); CallSave (Some q);
                              CallPublish "transfer.completed" id id cents]
    /\ heap w' !! p = Some (set_balance a (balance a - cents))
    /\ heap w' !! q = Some (set_balance a (balance a + cents))
    /\ stored_balance w' id = Some (balance a + cents)
    /\ balance a - cents <> balance a
    /\ balance a + cents <> balance a.
Proof.
  intros Hwf Hst Hid Hpos Hle Hmax Hgw.
  destruct (stored_some_inv _ _ _ Hst) as (l & Hd & Hl).
  destruct w as [h d c]. cbn [heap data calls] in *.
  pose proof (Debit_applied a cents Hpos Hle ltac:(lia)) as Hdeb.
  pose proof (Credit_applied a cents Hpos
                ltac:(unfold Int64.MinInt64; lia) Hmax) as Hcre.
  exists (mkWorld (h ++ [set_balance a (balance a - cents);
                         set_balance a (balance a + cents);
                         set_balance a (balance a - cents);
                         set_balance a (balance a + cents)])
            (<[id := (length h + 3)%nat]> (<[id := (length h + 2)%nat]> d))
            (c ++ [CallByID id; CallByID id; CallSendTransfer id id cents;
                   CallSave (Some (length h + 0)%nat);
                   CallSave (Some (length h + 1)%nat);
                   CallPublish "transfer.completed" id id cents])),
         (length h + 0)%nat, (length h + 1)%nat.
  split.
  { rewrite (Execute_paid g (mkTransferInput id id cents) h d c l l a a
               _ _ Hd Hl Hd Hl Hdeb Hcre Hgw).
    cbn [set_balance ID balance FromID ToID Cents]. rewrite Hid. reflexivity. }
  split; [lia|].
  split; [reflexivity|].
  cbn [heap data calls].
  split; [rewrite lookup_new; reflexivity|].
  split; [rewrite lookup_new; reflexivity|].
  split; [|lia].
  unfold stored_balance, stored. cbn [heap data calls].
  rewrite lookup_insert_eq, lookup_new. reflexivity.
Qed.

(** ** Backoff and the payment rail *)

(** The integer stage of [FullJitter]: once the floating-point stage has
    produced a non-negative [int64] and the ceiling is a non-negative delay
    below [MaxInt64], a delay is returned and it lies between 0 and the
    smaller of the two. *)
Lemma FullJitter_within fpu draw attemptIndex baseDelay multiplier maxDelay :
  0 <= fpu attemptIndex baseDelay multiplier ->
  0 <= maxDelay < Int64.MaxInt64 ->
  exists delay,
    backoff.FullJitter fpu draw attemptIndex baseDelay multiplier maxDelay
    = Some delay
    /\ 0 <= delay <= Z.min (fpu attemptIndex baseDelay multiplier) maxDelay.
Proof.
  intros Hexp Hmax. unfold backoff.FullJitter, backoff.Int63n, Int64.add.
  set (e := fpu attemptIndex baseDelay multiplier) in *.
  set (capped := if e >? maxDelay then maxDelay else e).
  assert (Hcap : capped = Z.min e maxDelay).
  { subst capped. destruct (e >? maxDelay) eqn:E; bool_to_Z; lia. }
  rewrite wrap_id
    by (unfold Int64.in_range, Int64.MinInt64, Int64.MaxInt64 in *; lia).
  replace (capped + 1 <=? 0) with false by (symmetry; apply Z.leb_gt; lia).
  eexists. split; [reflexivity|].
  pose proof (Z.mod_pos_bound draw (capped + 1) ltac:(lia)). lia.
Qed.

(** With a negative ceiling there is no delay to return: [rand.Int63n]
    panics whatever the floating-point stage produced. *)
Lemma FullJitter_negative_ceiling fpu draw attemptIndex baseDelay multiplier maxDelay :
  Int64.MinInt64 <= maxDelay < 0 ->
  Int64.in_range (fpu attemptIndex baseDelay multiplier) ->
  backoff.FullJitter fpu draw attemptIndex baseDelay multiplier maxDelay = None.
Proof.
  intros Hmax He. unfold backoff.FullJitter, backoff.Int63n, Int64.add.
  set (e := fpu attemptIndex baseDelay multiplier) in *.
  unfold Int64.in_range, Int64.MinInt64, Int64.MaxInt64 in *.
  destruct (e >? maxDelay) eqn:E; bool_to_Z;
    (rewrite wrap_id
       by (unfold Int64.in_range, Int64.MinInt64, Int64.MaxInt64; lia));
    [replace (maxDelay + 1 <=? 0) with true by (symmetry; apply Z.leb_le; lia)
    |replace (e + 1 <=? 0) with true by (symmetry; apply Z.leb_le; lia)];
    reflexivity.
Qed.

Lemma count_attempts_app xs ys :
  FakeSTP.count_attempts (xs ++ ys)
  = (FakeSTP.count_attempts xs + FakeSTP.count_attempts ys)%nat.
Proof.
  induction xs as [|[i|i d] xs IH]; simpl; [reflexivity | rewrite IH; reflexivity | exact IH].
Qed.

(** The retry loop from attempt [k] on, with [seen] already recorded. *)
Lemma attempts_from amb : forall fuel k seen,
  0 <= k ->
  (Z.to_nat (FakeSTP.maxRetries + 1 - k) < fuel)%nat ->
  exists r new,
    FakeSTP.attempts amb fuel k seen = Some (r, seen ++ new)
    /\ (FakeSTP.count_attempts new <= Z.to_nat (FakeSTP.maxRetries + 1 - k))%nat
    /\ (forall j, In (FakeSTP.Attempt j) new -> k <= j <= FakeSTP.maxRetries)
    /\ (forall j, In (FakeSTP.Attempt j) new -> rail_ok (meets amb j) = true ->
          r = FakeSTP.Returns "OK" None
          /\ exists before, new = before ++ [FakeSTP.Attempt j])
    /\ (In (FakeSTP.Attempt FakeSTP.maxRetries) new ->
        rail_ok (meets amb FakeSTP.maxRetries) = false ->
          r = FakeSTP.Returns "FAILED" (Some ErrTransient)
          /\ exists before, new = before ++ [FakeSTP.Attempt FakeSTP.maxRetries])
    /\ ((forall i, k <= i < FakeSTP.maxRetries ->
           0 <= float_exponential amb i FakeSTP.baseDelay FakeSTP.multiplier) ->
        r <> FakeSTP.Panics)
    /\ (k <= FakeSTP.maxRetries -> exists rest, new = FakeSTP.Attempt k :: rest).
Proof.
  induction fuel as [|fuel IH]; intros k seen Hk Hfuel; [lia|].
  cbn [FakeSTP.attempts].
  destruct (k <=? FakeSTP.maxRetries) eqn:Ele; bool_to_Z.
  2:{ exists (FakeSTP.Returns "FAILED" (Some ErrUnreachable)), [].
      rewrite app_nil_r. split; [reflexivity|].
      split; [simpl; lia|].
      repeat split; try (intros; simpl in *; tauto || discriminate || lia). }
  destruct (rail_ok (meets amb k)) eqn:Eok.
  { exists (FakeSTP.Returns "OK" None), [FakeSTP.Attempt k].
    split; [reflexivity|].
    split; [simpl; unfold FakeSTP.maxRetries in *; lia|].
    split; [intros j [Hj|[]]; inversion Hj; subst; lia|].
    split; [intros j [Hj|[]] _; inversion Hj; subst;
            split; [reflexivity | exists []; reflexivity]|].
    split; [intros [Hj|[]] Hno; inversion Hj; subst; congruence|].
    split; [discriminate | intros _; eexists; reflexivity]. }
  destruct (k =? FakeSTP.maxRetries) eqn:Elast; bool_to_Z.
  { subst k.
    exists (FakeSTP.Returns "FAILED" (Some ErrTransient)),
           [FakeSTP.Attempt FakeSTP.maxRetries].
    split; [reflexivity|].
    split; [simpl; lia|].
    split; [intros j [Hj|[]]; inversion Hj; subst; lia|].
    split; [intros j [Hj|[]] Hyes; inversion Hj; subst; congruence|].
    split; [intros _ _; split; [reflexivity | exists []; reflexivity]|].
    split; [discriminate | intros _; eexists; reflexivity]. }
  destruct (backoff.FullJitter (float_exponential amb) (jitter_draw (meets amb k))
              k FakeSTP.baseDelay FakeSTP.multiplier FakeSTP.maxDelay)
    as [sleepDuration|] eqn:Ejit.
  2:{ exists FakeSTP.Panics, [FakeSTP.Attempt k].
      split; [reflexivity|].
      split; [simpl; unfold FakeSTP.maxRetries in *; lia|].
      split; [intros j [Hj|[]]; inversion Hj; subst; lia|].
      split; [intros j [Hj|[]] Hyes; inversion Hj; subst; congruence|].
      split; [intros [Hj|[]] _; inversion Hj; subst; lia|].
      split; [|intros _; eexists; reflexivity].
      intros Hfpu _.
      destruct (FullJitter_within (float_exponential amb) (jitter_draw (meets amb k))
                  k FakeSTP.baseDelay FakeSTP.multiplier FakeSTP.maxDelay)
        as (delay & Hsome & _);
        [apply Hfpu; lia | vm_compute; split; congruence | congruence]. }
  destruct (ctx_done (meets amb k)) eqn:Ectx.
  { exists (FakeSTP.Returns "CANCELLED" (Some ErrContext)),
           [FakeSTP.Attempt k; FakeSTP.Wait k sleepDuration].
    rewrite <- app_assoc. split; [reflexivity|].
    split; [simpl; unfold FakeSTP.maxRetries in *; lia|].
    split; [intros j [Hj|[Hj|[]]]; inversion Hj; subst; lia|].
    split; [intros j [Hj|[Hj|[]]] Hyes; inversion Hj; subst; congruence|].
    split; [intros [Hj|[Hj|[]]] _; inversion Hj; subst; lia|].
    split; [discriminate | intros _; eexists; reflexivity]. }
  destruct (IH (k + 1)
              ((seen ++ [FakeSTP.Attempt k]) ++ [FakeSTP.Wait k sleepDuration])
              ltac:(lia) ltac:(unfold FakeSTP.maxRetries in *; lia))
    as (r & new & Hrun & Hcount & Hidx & Hok & Hlast & Hret & _).
  exists r, ([FakeSTP.Attempt k; FakeSTP.Wait k sleepDuration] ++ new).
  split; [rewrite Hrun, <- !app_assoc; reflexivity|].
  split; [rewrite count_attempts_app; simpl;
          unfold FakeSTP.maxRetries in *; lia|].
  split.
  { intros j [Hj|[Hj|Hj]]; [inversion Hj; subst; lia | discriminate|].
    specialize (Hidx j Hj). lia. }
  split.
  { intros j [Hj|[Hj|Hj]] Hyes; [inversion Hj; subst; congruence | discriminate|].
    destruct (Hok j Hj Hyes) as (-> & before & ->).
    split; [reflexivity|]. eexists. rewrite app_assoc. reflexivity. }
  split.
  { intros [Hj|[Hj|Hj]] Hno; [inversion Hj; subst; lia | discriminate|].
    destruct (Hlast Hj Hno) as (-> & before & ->).
    split; [reflexivity|]. eexists. rewrite app_assoc. reflexivity. }
  split; [|intros _; eexists; reflexivity].
  intros Hfpu. apply Hret. intros i Hi. apply Hfpu. lia.
Qed.

(** C8. [SendTransfer] always comes to an end, after at most
    [maxRetries + 1 = 5] attempts, whose indices lie in 0..4 and the first of
    which is attempt 0. If an attempt succeeds the result is the status OK
    with a nil error and that attempt is the last thing the client did; if
    attempt [maxRetries] fails the result is the status FAILED with the
    transient error and that attempt is the last thing the client did. The
    client itself never panics as long as the floating-point stage yields
    non-negative delays for the attempts 0..3. *)
Theorem rail_attempts_bounded (amb : Ambient) (fromID toID : string) (cents : Z) :
  exists r seen,
    FakeSTP.SendTransfer amb fromID toID cents = Some (r, seen)
    /\ FakeSTP.maxRetries + 1 = 5
    /\ (FakeSTP.count_attempts seen <= 5)%nat
    /\ (exists rest, seen = FakeSTP.Attempt 0 :: rest)
    /\ (forall j, In (FakeSTP.Attempt j) seen -> 0 <= j <= 4)
    /\ (forall j, In (FakeSTP.Attempt j) seen -> rail_ok (meets amb j) = true ->
          r = FakeSTP.Returns "OK" None
          /\ exists before, seen = before ++ [FakeSTP.Attempt j])
    /\ (In (FakeSTP.Attempt FakeSTP.maxRetries) seen ->
        rail_ok (meets amb FakeSTP.maxRetries) = false ->
          r = FakeSTP.Returns "FAILED" (Some ErrTransient)
          /\ exists before, seen = before ++ [FakeSTP.Attempt FakeSTP.maxRetries])
    /\ ((forall i, 0 <= i < FakeSTP.maxRetries ->
           0 <= float_exponential amb i FakeSTP.baseDelay FakeSTP.multiplier) ->
        r <> FakeSTP.Panics).
Proof.
  unfold FakeSTP.SendTransfer.
  destruct (attempts_from amb (S (Z.to_nat (FakeSTP.maxRetries + 1))) 0 []
              ltac:(lia) ltac:(vm_compute; lia))
    as (r & new & Hrun & Hcount & Hidx & Hok & Hlast & Hret & Hfirst).
  exists r, new. cbn [app] in Hrun.
  split; [exact Hrun|].
  split; [reflexivity|].
  split; [exact Hcount|].
  split; [apply Hfirst; vm_compute; congruence|].
  split; [exact Hidx|].
  split; [exact Hok|].
  split; [exact Hlast | exact Hret].
Qed.

(** ** The properties at sample inputs *)

Lemma sample_bank_well_formed : well_formed sample_bank.
Proof.
  intros id l Hl. unfold sample_bank in *. cbn [data heap] in *.
  apply lookup_insert_Some in Hl as [[_ <-]|[_ Hl]]; [simpl; lia|].
  apply lookup_insert_Some in Hl as [[_ <-]|[_ Hl]]; [simpl; lia|].
  rewrite lookup_empty in Hl. discriminate.
Qed.

Lemma sample_bank_keyed : keyed_by_id sample_bank.
Proof.
  intros id a Hs. unfold stored, sample_bank in Hs. cbn [heap data] in Hs.
  destruct (decide (id = "A")) as [->|HnA]; [inversion Hs; reflexivity|].
  destruct (decide (id = "B")) as [->|HnB]; [inversion Hs; reflexivity|].
  rewrite !lookup_insert_ne, lookup_empty in Hs by congruence. discriminate.
Qed.

Lemma full_bank_well_formed : well_formed full_bank.
Proof.
  intros id l Hl. unfold full_bank in *. cbn [data heap] in *.
  apply lookup_insert_Some in Hl as [[_ <-]|[_ Hl]]; [simpl; lia|].
  rewrite lookup_empty in Hl. discriminate.
Qed.

Lemma failed_payment_saves_nothing_witness :
  gateway_SendTransfer rail_down "A" "B" 5000 = Some ("FAILED", Some ErrTransient)
  /\ exists e w',
       Execute rail_down (mkTransferInput "A" "B" 5000) sample_bank
       = Some ((no_output, Some e), w')
       /\ stored_balance w' "A" = Some 10000
       /\ stored_balance w' "B" = Some 0.
Proof.
  split; [vm_compute; reflexivity|].
  destruct (failed_payment_saves_nothing rail_down
              (mkTransferInput "A" "B" 5000) sample_bank
              "FAILED" (Some ErrTransient))
    as (e & w' & extra & Hrun & _ & _ & _ & _ & _ & Hbal).
  - exact sample_bank_well_formed.
  - vm_compute. reflexivity.
  - left. discriminate.
  - exists e, w'. split; [exact Hrun|]. rewrite !Hbal. split; vm_compute; reflexivity.
Defined.

(** C2 (the code at the failing input). Source and destination are the same
    account, the balance is the largest [int64], the amount is 1 and the
    gateway says OK: every condition holds, [Execute] returns the balances
    [MaxInt64 - 1] and [MinInt64], and the store ends with [MinInt64], which
    is not balance plus amount. *)
Lemma self_transfer_at_ceiling_wraps :
  stored_balance full_bank "A" = Some Int64.MaxInt64
  /\ 0 < 1 <= Int64.MaxInt64
  /\ gateway_SendTransfer rail_up "A" "A" 1 = Some ("OK", None)
  /\ exists w',
       Execute rail_up (mkTransferInput "A" "A" 1) full_bank
       = Some ((mkTransferOutput (Int64.MaxInt64 - 1) Int64.MinInt64, None), w')
       /\ stored_balance w' "A" = Some Int64.MinInt64
       /\ stored_balance w' "A" <> Some (Int64.MaxInt64 + 1).
Proof.
  split; [vm_compute; reflexivity|].
  split; [vm_compute; split; congruence|].
  split; [vm_compute; reflexivity|].
  eexists. split; [vm_compute; reflexivity|].
  split; vm_compute; congruence.
Qed.

Lemma self_transfer_overwrites_debit_witness :
  exists w',
    Execute rail_up (mkTransferInput "A" "A" 5000) sample_bank
    = Some ((mkTransferOutput 5000 15000, None), w')
    /\ stored_balance sample_bank "A" = Some 10000
    /\ stored_balance w' "A" = Some 15000.
Proof.
  destruct (self_transfer_overwrites_debit rail_up sample_bank "A"
              (sample_account "A" 10000) 5000)
    as (w' & p & q & Hrun & _ & _ & _ & _ & Hbal & _).
  - exact sample_bank_well_formed.
  - vm_compute. reflexivity.
  - reflexivity.
  - lia.
  - simpl. lia.
  - vm_compute. congruence.
  - vm_compute. reflexivity.
  - exists w'. split; [exact Hrun|]. split; [vm_compute; reflexivity | exact Hbal].
Defined.

Lemma transfer_5000_of_10000_witness :
  exists w',
    Execute rail_up (mkTransferInput "A" "B" 5000) sample_bank
    = Some ((mkTransferOutput 5000 5000, None), w')
    /\ stored_balance w' "A" = Some 5000
    /\ stored_balance w' "B" = Some 5000.
Proof.
  apply (transfer_5000_of_10000 rail_up sample_bank "A" "B"
           (sample_account "A" 10000) (sample_account "B" 0)).
  - exact sample_bank_well_formed.
  - discriminate.
  - vm_compute. reflexivity.
  - vm_compute. reflexivity.
  - reflexivity.
  - reflexivity.
  - reflexivity.
  - reflexivity.
  - reflexivity.
Defined.


Lemma rail_attempts_bounded_witness :
  exists seen,
    FakeSTP.SendTransfer rail_down "A" "B" 5000
    = Some (FakeSTP.Returns "FAILED" (Some ErrTransient), seen)
    /\ FakeSTP.count_attempts seen = 5%nat
    /\ FakeSTP.count_waits seen = 4%nat.
Proof.
  destruct (rail_attempts_bounded rail_down "A" "B" 5000)
    as (r & seen & Hrun & _ & _ & _ & _ & _ & Hlast & _).
  assert (Hseen : Some (r, seen) = FakeSTP.SendTransfer rail_down "A" "B" 5000)
    by (symmetry; exact Hrun).
  vm_compute in Hseen. injection Hseen as _ Hseen. subst seen.
  destruct Hlast as [-> _].
  - right; right; right; right; right; right; right; right; left. reflexivity.
  - reflexivity.
  - eexists. split; [exact Hrun|]. split; reflexivity.
Defined.

Lemma store_contract_witness :
  (exists w', Create (Some 0%nat) sample_bank = Some (Some ErrAlreadyExists, w')
              /\ heap w' = heap sample_bank /\ data w' = data sample_bank)
  /\ (exists w', ByID "C" sample_bank = Some ((None, Some ErrNotFound), w')
                 /\ heap w' = heap sample_bank /\ data w' = data sample_bank)
  /\ (exists p w1 e w2 q w3,
        ByID "A" sample_bank = Some ((Some p, None), w1)
        /\ heap w1 !! p = Some (sample_account "A" 10000)
        /\ stepAt (Some p) (OpDebit 100) w1 = Some (e, w2)
        /\ heap w2 !! p = Some (fst (step (sample_account "A" 10000) (OpDebit 100)))
        /\ ByID "A" w2 = Some ((Some q, None), w3)
        /\ heap w3 !! q = Some (sample_account "A" 10000)
        /\ stored w3 "A" = Some (sample_account "A" 10000)).
Proof.
  destruct store_contract as (Hcreate & Hmissing & Hsnapshot).
  split; [|split].
  - apply (Hcreate sample_bank 0%nat (sample_account "A" 10000) 0%nat);
      vm_compute; reflexivity.
  - apply (Hmissing sample_bank "C"). vm_compute. reflexivity.
  - apply (Hsnapshot sample_bank "A" (sample_account "A" 10000) (OpDebit 100)).
    + exact sample_bank_well_formed.
    + vm_compute. reflexivity.
Defined.

(** ** Invariants of the repository

    The hypotheses [well_formed] and [keyed_by_id] of the properties above
    hold of the empty repository and are kept by every operation. *)

Lemma NewAccountRepo_invariants :
  well_formed NewAccountRepo /\ keyed_by_id NewAccountRepo.
Proof.
  split.
  - intros id l Hl. cbn in Hl. rewrite lookup_empty in Hl. discriminate.
  - intros id a Hs. unfold stored in Hs. cbn in Hs.
    rewrite lookup_empty in Hs. discriminate.
Qed.

Lemma more_cells_invariants h d c cells c' :
  well_formed (mkWorld h d c) -> keyed_by_id (mkWorld h d c) ->
  well_formed (mkWorld (h ++ cells) d c')
  /\ keyed_by_id (mkWorld (h ++ cells) d c').
Proof.
  intros Hwf Hkey. split.
  - intros id l Hl. cbn [heap data] in *. rewrite length_app.
    specialize (Hwf id l Hl). cbn [heap] in Hwf. lia.
  - intros id a Hs. apply (Hkey id a).
    rewrite <- Hs. symmetry. apply stored_old.
    intros l Hl. exact (Hwf id l Hl).
Qed.

Lemma filed_cell_invariants h d c a c' :
  well_formed (mkWorld h d c) -> keyed_by_id (mkWorld h d c) ->
  well_formed (mkWorld (h ++ [a]) (<[ID a := length h]> d) c')
  /\ keyed_by_id (mkWorld (h ++ [a]) (<[ID a := length h]> d) c').
Proof.
  intros Hwf Hkey. split.
  - intros id l Hl. cbn [heap data] in *. rewrite length_app. simpl.
    apply lookup_insert_Some in Hl as [[_ <-]|[_ Hl]]; [lia|].
    specialize (Hwf id l Hl). cbn [heap] in Hwf. lia.
  - intros id x Hs. unfold stored in Hs. cbn [heap data] in Hs.
    destruct (decide (ID a = id)) as [Heq|Hne].
    + subst id. rewrite lookup_insert_eq in Hs.
      rewrite lookup_app_r, Nat.sub_diag in Hs by lia.
      cbn in Hs. congruence.
    + rewrite lookup_insert_ne in Hs by assumption.
      apply (Hkey id x). unfold stored. cbn [heap data].
      destruct (d !! id) as [l|] eqn:Hd; [|discriminate].
      rewrite lookup_app_l in Hs; [exact Hs|].
      exact (Hwf id l Hd).
Qed.

Lemma Save_at w l a :
  heap w !! l = Some a ->
  Save (Some l) w
  = Some (None, mkWorld (heap w ++ [a]) (<[ID a := length (heap w)]> (data w))
                        (calls w ++ [CallSave (Some l)])).
Proof.
  intros Hl. unfold Save, cloneAccount.
  run_step.
  run_step by (unfold load; cbn [heap data calls]; rewrite Hl; reflexivity).
  run_step by (run_step by (unfold load; cbn [heap data calls]; rewrite Hl; reflexivity);
               reflexivity).
  cbn [heap data calls]. run_step. reflexivity.
Qed.

Lemma Create_fresh w l a :
  heap w !! l = Some a -> data w !! ID a = None ->
  Create (Some l) w
  = Some (None, mkWorld (heap w ++ [a]) (<[ID a := length (heap w)]> (data w))
                        (calls w ++ [CallCreate (Some l)])).
Proof.
  intros Hl Hd. unfold Create, cloneAccount.
  run_step.
  run_step by (unfold load; cbn [heap data calls]; rewrite Hl; reflexivity).
  run_step by (unfold data_lookup; cbn [heap data calls]; rewrite Hd; reflexivity).
  run_step by (run_step by (unfold load; cbn [heap data calls]; rewrite Hl; reflexivity);
               reflexivity).
  cbn [heap data calls]. run_step. reflexivity.
Qed.

(** Whatever [Execute] returns, for whatever gateway, input and outcome, it
    leaves a well-formed store filed by id. *)
Lemma Execute_keeps_invariants {G : Type} `{PaymentGateway G}
    (g : G) input w r w' :
  well_formed w -> keyed_by_id w ->
  Execute g input w = Some (r, w') ->
  well_formed w' /\ keyed_by_id w'.
Proof.
  intros Hwf Hkey Hrun. destruct w as [h d c].
  destruct r as [out [e|]].
  - destruct (Execute_error_frame g input _ out e w' Hwf Hrun)
      as (_ & Hdata & [cells Hheap] & _).
    destruct w' as [h' d' c']. cbn [heap data calls] in *. subst.
    apply (more_cells_invariants h d c); assumption.
  - cbn [heap data calls] in *.
    destruct (d !! FromID input) as [lf|] eqn:Hdf.
    2:{ rewrite Execute_source_missing in Hrun by assumption. discriminate. }
    destruct (lookup_lt_is_Some_2 h lf (Hwf _ _ Hdf)) as [af Hlf].
    destruct (d !! ToID input) as [lt|] eqn:Hdt.
    2:{ erewrite Execute_destination_missing in Hrun by eassumption. discriminate. }
    destruct (lookup_lt_is_Some_2 h lt (Hwf _ _ Hdt)) as [at' Hlt].
    rewrite (Execute_both_found g input h d c lf lt af at' Hdf Hlf Hdt Hlt) in Hrun.
    cbv zeta in Hrun.
    repeat case_match; try discriminate. inversion Hrun; subst.
    set (deb := fst (Debit af (Cents input))).
    set (cre := fst (Credit at' (Cents input))).
    destruct (more_cells_invariants h d c [deb; cre] c Hwf Hkey) as [Hwf1 Hkey1].
    destruct (filed_cell_invariants (h ++ [deb; cre]) d c deb c Hwf1 Hkey1)
      as [Hwf2 Hkey2].
    pose proof (filed_cell_invariants ((h ++ [deb; cre]) ++ [deb])
                  (<[ID deb := length (h ++ [deb; cre])]> d) c cre
                  (c ++ [CallByID (FromID input)] ++ [CallByID (ToID input)] ++
                   [CallSendTransfer (FromID input) (ToID input) (Cents input)] ++
                   [CallSave (Some (length h + 0)%nat);
                    CallSave (Some (length h + 1)%nat);
                    CallPublish "transfer.completed" (FromID input) (ToID input)
                      (Cents input)])
                  Hwf2 Hkey2) as Hfinal.
    rewrite !length_app in Hfinal. cbn [length] in Hfinal.
    rewrite <- !app_assoc in Hfinal. cbn [app] in Hfinal.
    replace (length h + 2 + 1)%nat with (length h + 3)%nat in Hfinal by lia.
    rewrite <- ?app_assoc. exact Hfinal.
Qed.

(** The repository's own unit test, [TestAccountInvariants]. *)
Example TestAccountInvariants :
  exists clabe0 account,
    NewCLABE "032180000118359719" = (clabe0, None)
    /\ NewAccount "acc-1" "Alice" clabe0 = (Some account, None)
    /\ snd (step account (OpCredit 1000)) = None
    /\ Balance (run account [OpCredit 1000]) = 1000
    /\ snd (step (run account [OpCredit 1000]) (OpDebit 500)) = None
    /\ Balance (run account [OpCredit 1000; OpDebit 500]) = 500
    /\ snd (step (run account [OpCredit 1000; OpDebit 500]) (OpDebit 600))
       = Some ErrInsufficientFund.
Proof. do 2 eexists. repeat split. Qed.

(** * Further properties of the code *)

(** ** Debit and credit at the edges of [int64] *)

(** X1. On an account whose balance is a non-negative [int64], [Debit]
    succeeds exactly when [0 < cents <= balance] and then subtracts exactly
    [cents]; in every other case the account is left as it was and the error
    is [ErrInvalidAmount] for [cents <= 0], [ErrInsufficientFund] otherwise.
    So a debit never takes such a balance below zero. *)
Theorem Debit_exact (a : Account) (cents : Z) :
  0 <= balance a <= Int64.MaxInt64 -> cents <= Int64.MaxInt64 ->
  Debit a cents =
  (if (0 <? cents) && (cents <=? balance a)
   then (set_balance a (balance a - cents), None)
   else (a, Some (if cents <=? 0 then ErrInvalidAmount else ErrInsufficientFund)))
  /\ 0 <= balance (fst (Debit a cents)) <= balance a.
Proof.
  intros Hb Hc.
  destruct (0 <? cents) eqn:Epos; bool_to_Z.
  - destruct (cents <=? balance a) eqn:Ele; bool_to_Z; cbn [andb].
    + rewrite Debit_applied by lia. cbn. split; [reflexivity | lia].
    + rewrite Debit_insufficient by lia.
      replace (cents <=? 0) with false by (symmetry; apply Z.leb_gt; lia).
      cbn. split; [reflexivity | lia].
  - cbn [andb]. rewrite Debit_rejects by lia.
    replace (cents <=? 0) with true by (symmetry; apply Z.leb_le; lia).
    cbn. split; [reflexivity | lia].
Qed.

Lemma Debit_exact_witness :
  Debit (sample_account "A" 500) 500 = (sample_account "A" 0, None)
  /\ Debit (sample_account "A" 500) 501
     = (sample_account "A" 500, Some ErrInsufficientFund).
Proof.
  split.
  - apply (proj1 (Debit_exact (sample_account "A" 500) 500
                    ltac:(vm_compute; split; congruence)
                    ltac:(vm_compute; congruence))).
  - apply (proj1 (Debit_exact (sample_account "A" 500) 501
                    ltac:(vm_compute; split; congruence)
                    ltac:(vm_compute; congruence))).
Defined.

(** X2. On an account whose balance is a non-negative [int64], [Credit] of
    an [int64] amount rejects [cents <= 0] with [ErrInvalidAmount] and never
    rejects a positive amount: it adds it when the sum fits, and when the sum
    exceeds [MaxInt64] it still returns nil and leaves the negative balance
    [balance + cents - 2^64]. *)
Theorem Credit_exact (a : Account) (cents : Z) :
  0 <= balance a <= Int64.MaxInt64 -> cents <= Int64.MaxInt64 ->
  Credit a cents =
  (if cents <=? 0 then (a, Some ErrInvalidAmount)
   else if balance a + cents <=? Int64.MaxInt64
        then (set_balance a (balance a + cents), None)
        else (set_balance a (balance a + cents - 2 ^ 64), None))
  /\ (Int64.MaxInt64 < balance a + cents ->
      0 < cents -> balance (fst (Credit a cents)) < 0).
Proof.
  intros Hb Hc.
  assert (Hwrap : Int64.MaxInt64 < balance a + cents ->
                  Int64.wrap (balance a + cents) = balance a + cents - 2 ^ 64).
  { intros Hover. unfold Int64.wrap, Int64.MaxInt64 in *.
    replace (balance a + cents + 2 ^ 63)
      with (balance a + cents - 2 ^ 63 + 1 * 2 ^ 64) by lia.
    rewrite Z.mod_add by lia. rewrite Z.mod_small by lia. lia. }
  destruct (cents <=? 0) eqn:Epos; bool_to_Z.
  - rewrite Credit_rejects by lia. split; [reflexivity | lia].
  - destruct (balance a + cents <=? Int64.MaxInt64) eqn:Efit; bool_to_Z.
    + rewrite Credit_applied by (unfold Int64.MinInt64; lia).
      split; [reflexivity | lia].
    + unfold Credit, Int64.add.
      replace (cents <=? 0) with false by (symmetry; apply Z.leb_gt; lia).
      rewrite Hwrap by lia. split; [reflexivity|].
      intros _ _. cbn. unfold Int64.MaxInt64 in *. lia.
Qed.

Lemma Credit_exact_witness :
  Credit (sample_account "A" Int64.MaxInt64) 1
  = (sample_account "A" Int64.MinInt64, None)
  /\ balance (fst (Credit (sample_account "A" Int64.MaxInt64) 1)) < 0.
Proof.
  pose proof (Credit_exact (sample_account "A" Int64.MaxInt64) 1
                ltac:(vm_compute; split; congruence)
                ltac:(vm_compute; congruence)) as [Heq Hneg].
  split.
  - rewrite Heq. vm_compute. reflexivity.
  - apply Hneg; vm_compute; reflexivity.
Defined.

Lemma ledger_below_ceiling_witness :
  let a := sample_account "A" 0 in
  let ops := [OpCredit 1000; OpDebit 500; OpDebit 600; OpCredit (-5)] in
  balance (run a ops) = 0 + applied_credits a ops - applied_debits a ops
  /\ Forall (fun b => 0 <= b) (trail a ops).
Proof.
  intros a ops.
  apply (ledger_below_ceiling ops a).
  - repeat constructor; vm_compute; congruence.
  - vm_compute. congruence.
  - vm_compute. congruence.
Defined.

(** ** Account numbers and holders *)

Lemma NewCLABE_cases raw :
  NewCLABE raw =
  if eighteen_digits (GoString.remove_spaces raw)
  then (mkCLABE (GoString.remove_spaces raw), None)
  else (mkCLABE "", Some ErrInvalidCLABE).
Proof.
  unfold NewCLABE, eighteen_digits, GoString.runes.
  rewrite all_digit_runes_bytes.
  destruct (GoString.len (GoString.remove_spaces raw) =? 18); simpl;
    [destruct (forallb _ _)|]; reflexivity.
Qed.

Lemma remove_spaces_idempotent s :
  GoString.remove_spaces (GoString.remove_spaces s) = GoString.remove_spaces s.
Proof.
  induction s as [|c rest IH]; [reflexivity|]. simpl.
  destruct (Ascii.eqb c " ") eqn:Ec; [exact IH|].
  simpl. rewrite Ec, IH. reflexivity.
Qed.

(** X4. What [NewCLABE] accepts is in normal form: the value has no space
    left, is 18 digits long, and validating it again returns the same CLABE;
    and spaces in the input never matter, [NewCLABE] of an input and of the
    input without its spaces agree. *)
Theorem NewCLABE_normal_form :
  (forall raw, NewCLABE (GoString.remove_spaces raw) = NewCLABE raw)
  /\ (forall raw c,
        NewCLABE raw = (c, None) ->
        CLABE_String c = GoString.remove_spaces raw
        /\ GoString.len (CLABE_String c) = 18
        /\ forallb is_digit (GoString.bytes (CLABE_String c)) = true
        /\ NewCLABE (CLABE_String c) = (c, None)).
Proof.
  split.
  - intros raw. rewrite !NewCLABE_cases, remove_spaces_idempotent. reflexivity.
  - intros raw c Hok. rewrite NewCLABE_cases in Hok.
    destruct (eighteen_digits (GoString.remove_spaces raw)) eqn:E18;
      [|discriminate].
    inversion Hok; subst c. unfold CLABE_String. cbn [value].
    pose proof E18 as E18'. unfold eighteen_digits in E18'. bool_to_Z.
    repeat split; try assumption.
    rewrite NewCLABE_cases, remove_spaces_idempotent, E18. reflexivity.
Qed.

Lemma NewCLABE_normal_form_witness :
  NewCLABE "0321 8000 0118 3597 19" = (mkCLABE "032180000118359719", None)
  /\ NewCLABE (CLABE_String (mkCLABE "032180000118359719"))
     = (mkCLABE "032180000118359719", None).
Proof.
  split; [reflexivity|].
  apply (proj2 NewCLABE_normal_form "0321 8000 0118 3597 19"
           (mkCLABE "032180000118359719") eq_refl).
Defined.

(** The bytes a multi-byte rune takes with it are continuation bytes. *)
Lemma decode_rune_tail b0 rest r w :
  GoString.decode_rune (b0 :: rest) = (r, w) ->
  Forall (fun c => 128 <= c) (take (Nat.pred w) rest).
Proof.
  unfold GoString.decode_rune, GoString.is_cont.
  repeat case_match; intros Heq; inversion Heq; subst; cbn [Nat.pred take];
    bool_to_Z; repeat constructor; lia.
Qed.

(** An ASCII byte is never swallowed by a neighbouring rune. *)
Lemma ascii_byte_is_rune b : forall bs skip,
  Forall (fun c => 128 <= c) (take skip bs) ->
  In b bs -> b < 128 ->
  In b (GoString.runes_from skip bs).
Proof.
  induction bs as [|b0 rest IH]; intros skip Hskip Hin Hb; [destruct Hin|].
  destruct skip as [|k].
  - unfold GoString.runes_from; fold GoString.runes_from.
    destruct (GoString.decode_rune (b0 :: rest)) as [r w] eqn:Edec.
    destruct Hin as [<-|Hin].
    + rewrite decode_rune_ascii in Edec by assumption.
      inversion Edec; subst. left. reflexivity.
    + right. apply IH; [|assumption|assumption].
      eapply decode_rune_tail. eassumption.
  - cbn [GoString.runes_from]. cbn [take] in Hskip.
    inversion Hskip as [|? ? Hb0 Hrest]; subst.
    destruct Hin as [<-|Hin]; [lia|].
    apply IH; assumption.
Qed.

Lemma ascii_runes_are_bytes bs :
  Forall (fun c => c < 128) bs -> GoString.runes_from 0 bs = bs.
Proof.
  induction bs as [|b0 rest IH]; intros Hall; [reflexivity|].
  inversion Hall as [|? ? Hb0 Hrest]; subst.
  unfold GoString.runes_from; fold GoString.runes_from.
  rewrite decode_rune_ascii by assumption. cbn [Nat.pred].
  rewrite IH by assumption. reflexivity.
Qed.

(** X5. [NewAccount] rejects with [ErrEmptyHolder] every holder name made
    only of ASCII white space (tab, line feed, vertical tab, form feed,
    carriage return, space), the empty name included; and it accepts every
    holder name that has a visible ASCII character (bytes 33..126) anywhere,
    returning an account with the id, the name exactly as given (not
    trimmed), the CLABE and a zero balance. *)
Theorem NewAccount_holder_check (id holder : string) (c : CLABE) :
  (Forall (fun b => 9 <= b <= 13 \/ b = 32) (GoString.bytes holder) ->
   NewAccount id holder c = (None, Some ErrEmptyHolder))
  /\ (Exists (fun b => 33 <= b <= 126) (GoString.bytes holder) ->
      NewAccount id holder c = (Some (mkAccount id holder c 0), None)).
Proof.
  unfold NewAccount, GoString.TrimSpace_empty, GoString.runes. split.
  - intros Hws.
    rewrite ascii_runes_are_bytes
      by (eapply Forall_impl; [exact Hws | cbn; intros; lia]).
    replace (forallb GoString.IsSpace (GoString.bytes holder)) with true;
      [reflexivity|].
    symmetry. apply forallb_forall. intros b Hb.
    rewrite Forall_forall in Hws. rewrite <- list_elem_of_In in Hb.
    specialize (Hws b Hb). unfold GoString.IsSpace.
    destruct Hws as [Hr| ->]; [|reflexivity].
    replace (9 <=? b) with true by (symmetry; apply Z.leb_le; lia).
    replace (b <=? 13) with true by (symmetry; apply Z.leb_le; lia).
    reflexivity.
  - intros Hvis. apply Exists_exists in Hvis as (b & Hb & Hrange).
    rewrite list_elem_of_In in Hb.
    pose proof (ascii_byte_is_rune b (GoString.bytes holder) 0
                  ltac:(constructor) Hb ltac:(lia)) as Hrune.
    destruct (forallb GoString.IsSpace
                (GoString.runes_from 0 (GoString.bytes holder))) eqn:Eall;
      [|reflexivity].
    rewrite forallb_forall in Eall. specialize (Eall b Hrune).
    unfold GoString.IsSpace in Eall. bool_to_Z; lia.
Qed.

Lemma NewAccount_holder_check_witness :
  NewAccount "acc-1" "   " (mkCLABE "032180000118359719")
  = (None, Some ErrEmptyHolder)
  /\ NewAccount "acc-1" " Alice " (mkCLABE "032180000118359719")
     = (Some (mkAccount "acc-1" " Alice " (mkCLABE "032180000118359719") 0), None).
Proof.
  split.
  - apply (proj1 (NewAccount_holder_check "acc-1" "   " _)).
    cbn [GoString.bytes].
    repeat (constructor; [right; reflexivity|]). constructor.
  - apply (proj2 (NewAccount_holder_check "acc-1" " Alice " _)).
    apply Exists_cons_tl, Exists_cons_hd. vm_compute. split; congruence.
Defined.

(** ** The repository: round trips and what it never touches *)

Lemma ByID_at w id l a :
  data w !! id = Some l -> heap w !! l = Some a ->
  ByID id w
  = Some ((Some (length (heap w)), None),
          mkWorld (heap w ++ [a]) (data w) (calls w ++ [CallByID id])).
Proof.
  intros Hd Hl. rewrite (with_no_cells w) at 1.
  rewrite (ByID_found (heap w) [] (data w) (calls w) id l a Hd Hl).
  cbn [app length]. rewrite Nat.add_0_r. reflexivity.
Qed.

Lemma on_receiver_at method w l a :
  heap w !! l = Some a ->
  on_receiver method (Some l) w
  = Some (snd (method a),
          mkWorld (<[l := fst (method a)]> (heap w)) (data w) (calls w)).
Proof.
  intros Hl. unfold on_receiver.
  run_step by (unfold load; rewrite Hl; reflexivity).
  run_step by (unfold store;
               rewrite decide_True by (eapply lookup_lt_Some; eassumption);
               reflexivity).
  reflexivity.
Qed.

Lemma stepAt_at o w l a :
  heap w !! l = Some a ->
  stepAt (Some l) o w
  = Some (snd (step a o),
          mkWorld (<[l := fst (step a o)]> (heap w)) (data w) (calls w)).
Proof.
  intros Hl. destruct o as [cents|cents]; unfold stepAt, CreditAt, DebitAt, step.
  - exact (on_receiver_at (fun a => Credit a cents) w l a Hl).
  - exact (on_receiver_at (fun a => Debit a cents) w l a Hl).
Qed.

Lemma stored_after_filing h d c a id :
  well_formed (mkWorld h d c) -> id <> ID a ->
  forall c', stored (mkWorld (h ++ [a]) (<[ID a := length h]> d) c') id
             = stored (mkWorld h d c) id.
Proof.
  intros Hwf Hne c'. unfold stored. cbn [heap data].
  rewrite lookup_insert_ne by congruence.
  destruct (d !! id) as [l|] eqn:Hd; [|reflexivity].
  apply lookup_app_l. exact (Hwf id l Hd).
Qed.

Lemma stored_just_filed h d c a :
  stored (mkWorld (h ++ [a]) (<[ID a := length h]> d) c) (ID a) = Some a.
Proof.
  unfold stored. cbn [heap data]. rewrite lookup_insert_eq.
  rewrite lookup_app_r, Nat.sub_diag by lia. reflexivity.
Qed.

(** X6. [Save] is an upsert that round-trips: whether or not the id was
    present, after [Save] of a pointer to account [a] the store holds [a]
    under [ID a], a following [ByID (ID a)] hands out a new cell (not the
    pointer that was saved) holding [a], every other id holds what it held
    before, and the store stays well-formed and filed by id. *)
Theorem Save_then_ByID (w : World) (l : loc) (a : Account) :
  well_formed w -> keyed_by_id w ->
  heap w !! l = Some a ->
  exists w1 q w2,
    Save (Some l) w = Some (None, w1)
    /\ stored w1 (ID a) = Some a
    /\ (forall id, id <> ID a -> stored w1 id = stored w id)
    /\ well_formed w1 /\ keyed_by_id w1
    /\ ByID (ID a) w1 = Some ((Some q, None), w2)
    /\ q <> l
    /\ heap w2 !! q = Some a.
Proof.
  intros Hwf Hkey Hl. destruct w as [h d c]. cbn [heap data calls] in *.
  pose proof (Save_at (mkWorld h d c) l a Hl) as Hsave.
  cbn [heap data calls] in Hsave.
  pose proof (lookup_lt_Some _ _ _ Hl) as Hlt.
  pose proof (ByID_at (mkWorld (h ++ [a]) (<[ID a := length h]> d)
                         (c ++ [CallSave (Some l)]))
                (ID a) (length h) a
                ltac:(cbn [data]; apply lookup_insert_eq)
                ltac:(cbn [heap]; rewrite lookup_app_r, Nat.sub_diag by lia;
                      reflexivity)) as Hread.
  cbn [heap data calls] in Hread.
  destruct (filed_cell_invariants h d c a (c ++ [CallSave (Some l)]) Hwf Hkey)
    as [Hwf1 Hkey1].
  do 3 eexists. split; [exact Hsave|].
  split; [apply stored_just_filed|].
  split; [intros id Hne; apply stored_after_filing; assumption|].
  split; [exact Hwf1|]. split; [exact Hkey1|].
  split; [exact Hread|].
  split; [rewrite length_app; cbn; lia|].
  cbn [heap]. rewrite lookup_app_r by lia. rewrite Nat.sub_diag. reflexivity.
Qed.

Lemma Save_then_ByID_witness :
  exists w1 q w2,
    Save (Some 1%nat) sample_bank = Some (None, w1)
    /\ stored w1 "B" = Some (sample_account "B" 0)
    /\ stored w1 "A" = Some (sample_account "A" 10000)
    /\ ByID "B" w1 = Some ((Some q, None), w2)
    /\ heap w2 !! q = Some (sample_account "B" 0).
Proof.
  destruct (Save_then_ByID sample_bank 1%nat (sample_account "B" 0))
    as (w1 & q & w2 & Hsave & Hst & Hframe & _ & _ & Hread & _ & Hq).
  - exact sample_bank_well_formed.
  - intros id a Hs. unfold stored, sample_bank in Hs. cbn [heap data] in Hs.
    destruct (sample_bank.(data) !! id) as [l|] eqn:Hd;
      unfold sample_bank in Hd; cbn [data] in Hd; rewrite Hd in Hs;
      [|discriminate].
    apply lookup_insert_Some in Hd as [[<- <-]|[_ Hd]];
      [inversion Hs; reflexivity|].
    apply lookup_insert_Some in Hd as [[<- <-]|[_ Hd]];
      [inversion Hs; reflexivity|].
    rewrite lookup_empty in Hd. discriminate.
  - reflexivity.
  - exists w1, q, w2. split; [exact Hsave|]. split; [exact Hst|].
    split; [rewrite (Hframe "A") by discriminate; vm_compute; reflexivity|].
    split; [exact Hread | exact Hq].
Defined.

(** X7. [Save] stores a copy: crediting or debiting the saved account
    through the caller's pointer afterwards changes the caller's cell only;
    the store still holds the account as it was saved. *)
Theorem Save_copies (w : World) (l : loc) (a : Account) (o : op) :
  heap w !! l = Some a ->
  exists w1 e w2,
    Save (Some l) w = Some (None, w1)
    /\ stepAt (Some l) o w1 = Some (e, w2)
    /\ heap w2 !! l = Some (fst (step a o))
    /\ stored w2 (ID a) = Some a.
Proof.
  intros Hl. destruct w as [h d c]. cbn [heap data calls] in *.
  pose proof (lookup_lt_Some _ _ _ Hl) as Hlt.
  pose proof (Save_at (mkWorld h d c) l a Hl) as Hsave.
  cbn [heap data calls] in Hsave.
  pose proof (stepAt_at o (mkWorld (h ++ [a]) (<[ID a := length h]> d)
                             (c ++ [CallSave (Some l)])) l a
                ltac:(cbn [heap]; rewrite lookup_app_l by lia; exact Hl))
    as Hstep.
  cbn [heap data calls] in Hstep.
  do 3 eexists. split; [exact Hsave|]. split; [exact Hstep|].
  cbn [heap]. split.
  - apply list_lookup_insert_eq. rewrite length_app. cbn. lia.
  - unfold stored. cbn [heap data]. rewrite lookup_insert_eq.
    rewrite list_lookup_insert_ne by lia.
    rewrite lookup_app_r, Nat.sub_diag by lia. reflexivity.
Qed.

Lemma Save_copies_witness :
  exists w1 e w2,
    Save (Some 0%nat) sample_bank = Some (None, w1)
    /\ stepAt (Some 0%nat) (OpDebit 10000) w1 = Some (e, w2)
    /\ heap w2 !! 0%nat = Some (sample_account "A" 0)
    /\ stored w2 "A" = Some (sample_account "A" 10000).
Proof.
  exact (Save_copies sample_bank 0%nat (sample_account "A" 10000)
           (OpDebit 10000) eq_refl).
Defined.

(** X8. [Create] with an id that is not present files a copy of the
    account: afterwards the store holds it under its id, every other id holds
    what it held before, a second [Create] of any account with that id fails
    with "already exists", and the store stays well-formed and filed by id. *)
Theorem Create_then_Create (w : World) (l l' : loc) (a a' : Account) :
  well_formed w -> keyed_by_id w ->
  heap w !! l = Some a -> data w !! ID a = None ->
  heap w !! l' = Some a' -> ID a' = ID a ->
  exists w1 w2,
    Create (Some l) w = Some (None, w1)
    /\ stored w1 (ID a) = Some a
    /\ (forall id, id <> ID a -> stored w1 id = stored w id)
    /\ well_formed w1 /\ keyed_by_id w1
    /\ Create (Some l') w1 = Some (Some ErrAlreadyExists, w2)
    /\ stored w2 (ID a) = Some a.
Proof.
  intros Hwf Hkey Hl Hfresh Hl' Hid. destruct w as [h d c].
  cbn [heap data calls] in *.
  pose proof (Create_fresh (mkWorld h d c) l a Hl Hfresh) as Hcreate.
  cbn [heap data calls] in Hcreate.
  pose proof (lookup_lt_Some _ _ _ Hl') as Hlt.
  pose proof (Create_existing
                (mkWorld (h ++ [a]) (<[ID a := length h]> d)
                   (c ++ [CallCreate (Some l)])) l' a' (length h)
                ltac:(cbn [heap]; rewrite lookup_app_l by lia; exact Hl')
                ltac:(cbn [data]; rewrite Hid; apply lookup_insert_eq))
    as Hagain.
  cbn [heap data calls] in Hagain.
  destruct (filed_cell_invariants h d c a (c ++ [CallCreate (Some l)]) Hwf Hkey)
    as [Hwf1 Hkey1].
  do 2 eexists. split; [exact Hcreate|].
  split; [apply stored_just_filed|].
  split; [intros id Hne; apply stored_after_filing; assumption|].
  split; [exact Hwf1|]. split; [exact Hkey1|].
  split; [exact Hagain|]. apply stored_just_filed.
Qed.

(** X9. On a well-formed store [ByID] never panics and only reads: it returns
    a pointer to a new cell holding the stored account, or nil with "not
    found"; either way the map and every cell that existed are untouched, so
    every id holds what it held before. *)
Theorem ByID_only_reads (w : World) (id : string) :
  well_formed w ->
  exists r w',
    ByID id w = Some (r, w')
    /\ data w' = data w
    /\ (forall id', stored w' id' = stored w id')
    /\ well_formed w'
    /\ match stored w id with
       | Some a => exists p, r = (Some p, None) /\ heap w' !! p = Some a
                             /\ heap w !! p = None
       | None => r = (None, Some ErrNotFound)
       end.
Proof.
  intros Hwf. destruct w as [h d c]. cbn [heap data calls] in *.
  destruct (d !! id) as [l|] eqn:Hd.
  - destruct (lookup_lt_is_Some_2 h l (Hwf _ _ Hd)) as [a Hl].
    pose proof (ByID_at (mkWorld h d c) id l a Hd Hl) as Hread.
    cbn [heap data calls] in Hread.
    do 2 eexists. split; [exact Hread|]. cbn [heap data calls].
    split; [reflexivity|].
    split; [intros id'; apply stored_old; intros l' Hl'; exact (Hwf id' l' Hl')|].
    split.
    { intros id' l' Hl'. cbn [heap data] in *. rewrite length_app.
      specialize (Hwf id' l' Hl'). cbn [heap] in Hwf. lia. }
    unfold stored. cbn [heap data]. rewrite Hd, Hl.
    exists (length h). split; [reflexivity|].
    split; [rewrite lookup_app_r, Nat.sub_diag by lia; reflexivity|].
    apply lookup_ge_None. lia.
  - pose proof (ByID_missing (mkWorld h d c) id Hd) as Hread.
    cbn [heap data calls] in Hread.
    do 2 eexists. split; [exact Hread|]. cbn [heap data calls].
    split; [reflexivity|].
    split; [intros id'; reflexivity|].
    split; [exact Hwf|].
    unfold stored. cbn [heap data]. rewrite Hd. reflexivity.
Qed.

Lemma ByID_only_reads_witness :
  exists r w',
    ByID "A" sample_bank = Some (r, w')
    /\ (forall id', stored w' id' = stored sample_bank id').
Proof.
  destruct (ByID_only_reads sample_bank "A" sample_bank_well_formed)
    as (r & w' & Hread & _ & Hframe & _).
  exists r, w'. split; [exact Hread | exact Hframe].
Defined.

Lemma Create_then_Create_witness :
  let w := mkWorld [sample_account "C" 7; sample_account "C" 99] ∅ [] in
  exists w1 w2,
    Create (Some 0%nat) w = Some (None, w1)
    /\ stored w1 "C" = Some (sample_account "C" 7)
    /\ Create (Some 1%nat) w1 = Some (Some ErrAlreadyExists, w2)
    /\ stored w2 "C" = Some (sample_account "C" 7).
Proof.
  intros w.
  destruct (Create_then_Create w 0%nat 1%nat
              (sample_account "C" 7) (sample_account "C" 99))
    as (w1 & w2 & Hc1 & Hs1 & _ & _ & _ & Hc2 & Hs2).
  - intros id l Hl. cbn in Hl. rewrite lookup_empty in Hl. discriminate.
  - intros id a Hs. unfold stored in Hs. cbn in Hs.
    rewrite lookup_empty in Hs. discriminate.
  - reflexivity.
  - apply lookup_empty.
  - reflexivity.
  - reflexivity.
  - exists w1, w2. repeat split; assumption.
Defined.

(** ** Deposits *)

(** [DepositMoney_Execute] when the id is present, case by case. *)
Lemma Deposit_found input h d c l a :
  d !! DepositInput_AccountID input = Some l -> h !! l = Some a ->
  let credited := fst (Credit a (DepositInput_Cents input)) in
  DepositMoney_Execute input (mkWorld h d c) =
  match snd (Credit a (DepositInput_Cents input)) with
  | Some e =>
    Some ((no_deposit, Some e),
          mkWorld (h ++ [credited]) d
            (c ++ [CallByID (DepositInput_AccountID input)]))
  | None =>
    Some ((mkDepositOutput (ID credited) (balance credited), None),
          mkWorld (h ++ [credited; credited])
            (<[ID credited := (length h + 1)%nat]> d)
            (c ++ [CallByID (DepositInput_AccountID input);
                   CallSave (Some (length h + 0)%nat)]))
  end.
Proof.
  intros Hd Hl credited. subst credited.
  replace (mkWorld h d c) with (mkWorld (h ++ []) d c)
    by (rewrite app_nil_r; reflexivity).
  unfold DepositMoney_Execute.
  run_step by (eapply ByID_found; eassumption). cbn [app length].
  unfold CreditAt.
  run_step by (apply on_receiver_new; reflexivity). cbn [insert list_insert].
  destruct (snd (Credit a (DepositInput_Cents input))) as [e|] eqn:Ecre.
  { reflexivity. }
  run_step by (apply Save_new; reflexivity). cbn [app length].
  run_step by (apply load_new; reflexivity).
  unfold ret, Balance. cbn [heap data calls]. rewrite <- ?app_assoc. reflexivity.
Qed.

Lemma Deposit_missing input w :
  data w !! DepositInput_AccountID input = None ->
  DepositMoney_Execute input w
  = Some ((no_deposit, Some ErrNotFound),
          mkWorld (heap w) (data w)
            (calls w ++ [CallByID (DepositInput_AccountID input)])).
Proof.
  intros Hd. unfold DepositMoney_Execute.
  run_step by (apply ByID_missing; assumption). reflexivity.
Qed.

(** X10. A deposit of [cents > 0] into a stored account whose balance is
    non-negative and stays within [MaxInt64] returns the account's id and the
    new balance with a nil error, reads once and saves once, leaves the store
    holding balance plus [cents] for that id, and leaves every other id as it
    was. *)
Theorem Deposit_adds (w : World) (id : string) (a : Account) (cents : Z) :
  well_formed w ->
  stored w id = Some a -> ID a = id ->
  0 < cents -> 0 <= balance a -> balance a + cents <= Int64.MaxInt64 ->
  exists w' p,
    DepositMoney_Execute (mkDepositInput id cents) w
    = Some ((mkDepositOutput id (balance a + cents), None), w')
    /\ calls w' = calls w ++ [CallByID id; CallSave (Some p)]
    /\ stored w' id = Some (set_balance a (balance a + cents))
    /\ (forall id', id' <> id -> stored w' id' = stored w id').
Proof.
  intros Hwf Hst Hid Hpos Hb Hmax.
  destruct (stored_some_inv _ _ _ Hst) as (l & Hd & Hl).
  destruct w as [h d c]. cbn [heap data calls] in *.
  pose proof (Credit_applied a cents Hpos
                ltac:(unfold Int64.MinInt64; lia) Hmax) as Hcre.
  rewrite (Deposit_found (mkDepositInput id cents) h d c l a Hd Hl).
  cbv zeta. cbn [DepositInput_AccountID DepositInput_Cents].
  rewrite Hcre. cbn [fst snd set_balance ID balance]. rewrite Hid.
  do 2 eexists. split; [reflexivity|]. cbn [heap data calls].
  split; [reflexivity|].
  split.
  - unfold stored. cbn [heap data]. rewrite lookup_insert_eq, lookup_new.
    reflexivity.
  - intros id' Hne. unfold stored. cbn [heap data].
    rewrite lookup_insert_ne by congruence.
    destruct (d !! id') as [l'|] eqn:Hd'; [|reflexivity].
    apply lookup_app_l. exact (Hwf id' l' Hd').
Qed.

Lemma Deposit_adds_witness :
  exists w',
    DepositMoney_Execute (mkDepositInput "A" 15000) sample_bank
    = Some ((mkDepositOutput "A" 25000, None), w')
    /\ stored w' "A" = Some (sample_account "A" 25000)
    /\ stored w' "B" = Some (sample_account "B" 0).
Proof.
  destruct (Deposit_adds sample_bank "A" (sample_account "A" 10000) 15000)
    as (w' & p & Hrun & _ & Hst & Hframe).
  - exact sample_bank_well_formed.
  - reflexivity.
  - reflexivity.
  - lia.
  - vm_compute. congruence.
  - vm_compute. congruence.
  - exists w'. split; [exact Hrun|]. split; [exact Hst|].
    rewrite (Hframe "B") by discriminate. reflexivity.
Defined.

(** X11. A deposit into an id that is not present returns "not found", and a
    deposit of [cents <= 0] into an id that is present returns
    [ErrInvalidAmount] (the lookup comes first, so an absent id wins over a
    bad amount). In both cases the output is the zero value, [Save] is not
    called and every id holds what it held before. *)
Theorem Deposit_rejected (w : World) (id : string) (cents : Z) :
  well_formed w ->
  stored w id = None \/ cents <= 0 ->
  exists w',
    DepositMoney_Execute (mkDepositInput id cents) w
    = Some ((no_deposit,
             Some (match stored w id with
                   | None => ErrNotFound
                   | Some _ => ErrInvalidAmount
                   end)), w')
    /\ calls w' = calls w ++ [CallByID id]
    /\ data w' = data w
    /\ (forall id', stored w' id' = stored w id').
Proof.
  intros Hwf Hbad. destruct w as [h d c].
  destruct (d !! id) as [l|] eqn:Hd.
  - destruct (lookup_lt_is_Some_2 h l (Hwf _ _ Hd)) as [a Hl].
    assert (Hst : stored (mkWorld h d c) id = Some a)
      by (unfold stored; cbn [heap data]; rewrite Hd; exact Hl).
    rewrite Hst in *. destruct Hbad as [Habs|Hneg]; [discriminate|].
    rewrite (Deposit_found (mkDepositInput id cents) h d c l a Hd Hl).
    cbv zeta. cbn [DepositInput_AccountID DepositInput_Cents].
    rewrite Credit_rejects by assumption. cbn [fst snd].
    eexists. split; [reflexivity|]. cbn [heap data calls].
    split; [reflexivity|]. split; [reflexivity|].
    intros id'. apply stored_old. intros l' Hl'. exact (Hwf id' l' Hl').
  - assert (Hst : stored (mkWorld h d c) id = None)
      by (unfold stored; cbn [heap data]; rewrite Hd; reflexivity).
    rewrite Hst.
    rewrite (Deposit_missing (mkDepositInput id cents) (mkWorld h d c) Hd).
    eexists. split; [reflexivity|]. cbn [heap data calls].
    repeat split; reflexivity.
Qed.

Lemma Deposit_rejected_witness :
  (exists w', DepositMoney_Execute (mkDepositInput "Z" (-5)) sample_bank
              = Some ((no_deposit, Some ErrNotFound), w'))
  /\ (exists w', DepositMoney_Execute (mkDepositInput "A" 0) sample_bank
                 = Some ((no_deposit, Some ErrInvalidAmount), w')
                 /\ stored w' "A" = Some (sample_account "A" 10000)).
Proof.
  split.
  - destruct (Deposit_rejected sample_bank "Z" (-5) sample_bank_well_formed
                ltac:(left; reflexivity)) as (w' & Hrun & _).
    exists w'. exact Hrun.
  - destruct (Deposit_rejected sample_bank "A" 0 sample_bank_well_formed
                ltac:(right; lia)) as (w' & Hrun & _ & _ & Hframe).
    exists w'. split; [exact Hrun|]. rewrite Hframe. reflexivity.
Defined.

(** X12. On a well-formed store filed by id a deposit never panics, whatever
    the id and the amount, and leaves a well-formed store filed by id. *)
Theorem Deposit_keeps_invariants (w : World) (input : DepositInput) :
  well_formed w -> keyed_by_id w ->
  exists r w',
    DepositMoney_Execute input w = Some (r, w')
    /\ well_formed w' /\ keyed_by_id w'.
Proof.
  intros Hwf Hkey. destruct w as [h d c].
  destruct (d !! DepositInput_AccountID input) as [l|] eqn:Hd.
  - destruct (lookup_lt_is_Some_2 h l (Hwf _ _ Hd)) as [a Hl].
    rewrite (Deposit_found input h d c l a Hd Hl). cbv zeta.
    set (cre := fst (Credit a (DepositInput_Cents input))).
    destruct (snd (Credit a (DepositInput_Cents input))) as [e|].
    + do 2 eexists. split; [reflexivity|].
      apply (more_cells_invariants h d c); assumption.
    + do 2 eexists. split; [reflexivity|].
      destruct (more_cells_invariants h d c [cre] c Hwf Hkey) as [Hwf1 Hkey1].
      pose proof (filed_cell_invariants (h ++ [cre]) d c cre
                    (c ++ [CallByID (DepositInput_AccountID input);
                           CallSave (Some (length h + 0)%nat)])
                    Hwf1 Hkey1) as Hfinal.
      rewrite length_app in Hfinal. cbn [length] in Hfinal.
      rewrite <- app_assoc in Hfinal. exact Hfinal.
  - rewrite (Deposit_missing input (mkWorld h d c) Hd).
    do 2 eexists. split; [reflexivity|]. cbn [heap data calls].
    apply (more_cells_invariants h d c [] c) in Hkey; [|exact Hwf].
    rewrite app_nil_r in Hkey. exact Hkey.
Qed.

Lemma Deposit_keeps_invariants_witness :
  exists w',
    DepositMoney_Execute (mkDepositInput "A" 15000) sample_bank
    = Some ((mkDepositOutput "A" 25000, None), w')
    /\ well_formed w' /\ keyed_by_id w'
    /\ stored_balance w' "A" = Some 25000
    /\ stored_balance w' "B" = Some 0.
Proof.
  destruct (Deposit_keeps_invariants sample_bank (mkDepositInput "A" 15000)
              sample_bank_well_formed sample_bank_keyed)
    as (r & w' & Hrun & Hwf & Hkey).
  pose proof Hrun as Hcells. vm_compute in Hcells.
  injection Hcells as Hr Hw'. subst r w'.
  eexists. split; [exact Hrun|].
  split; [exact Hwf|]. split; [exact Hkey|].
  split; vm_compute; reflexivity.
Defined.

(** ** Transfers *)

(** X13. A transfer of [0 < cents <= balance] between two different stored
    accounts, whatever [int64] the destination holds as long as it stays
    within [MaxInt64], and the gateway saying OK, returns the two new
    balances, leaves the store holding balance minus [cents] for the source
    and balance plus [cents] for the destination, so their sum is what it
    was, and leaves every other id as it was. *)
Theorem transfer_moves_money {G : Type} `{PaymentGateway G}
    (g : G) (w : World) (fromID toID : string) (af at' : Account) (cents : Z) :
  well_formed w -> fromID <> toID ->
  stored w fromID = Some af -> stored w toID = Some at' ->
  ID af = fromID -> ID at' = toID ->
  0 < cents -> cents <= balance af -> balance af <= Int64.MaxInt64 ->
  Int64.MinInt64 <= balance at' -> balance at' + cents <= Int64.MaxInt64 ->
  gateway_SendTransfer g fromID toID cents = Some ("OK", None) ->
  exists w',
    Execute g (mkTransferInput fromID toID cents) w
    = Some ((mkTransferOutput (balance af - cents) (balance at' + cents), None), w')
    /\ stored w' fromID = Some (set_balance af (balance af - cents))
    /\ stored w' toID = Some (set_balance at' (balance at' + cents))
    /\ (exists bf bt, stored_balance w' fromID = Some bf
                      /\ stored_balance w' toID = Some bt
                      /\ bf + bt = balance af + balance at')
    /\ (forall id, id <> fromID -> id <> toID -> stored w' id = stored w id).
Proof.
  intros Hwf Hne Hsf Hst Hidf Hidt Hpos Hle Hmaxf Hbt Hmaxt Hgw.
  destruct (stored_some_inv _ _ _ Hsf) as (lf & Hdf & Hlf).
  destruct (stored_some_inv _ _ _ Hst) as (lt & Hdt & Hlt).
  destruct w as [h d c]. cbn [heap data calls] in *.
  pose proof (Debit_applied af cents Hpos Hle Hmaxf) as Hdeb.
  pose proof (Credit_applied at' cents Hpos Hbt Hmaxt) as Hcre.
  rewrite (Execute_paid g (mkTransferInput fromID toID cents) h d c lf lt af at'
             _ _ Hdf Hlf Hdt Hlt Hdeb Hcre Hgw).
  eexists. split; [reflexivity|].
  assert (Hfrom : forall x, <[toID := x]> (<[fromID := (length h + 2)%nat]> d)
                            !! fromID = Some (length h + 2)%nat).
  { intros x. rewrite lookup_insert_ne by congruence. apply lookup_insert_eq. }
  split.
  { unfold stored. cbn [heap data set_balance ID FromID ToID Cents].
    rewrite Hidf, Hidt, Hfrom, lookup_new. reflexivity. }
  split.
  { unfold stored. cbn [heap data set_balance ID FromID ToID Cents].
    rewrite Hidf, Hidt, lookup_insert_eq, lookup_new. reflexivity. }
  split.
  { exists (balance af - cents), (balance at' + cents).
    unfold stored_balance, stored. cbn [heap data set_balance ID FromID ToID Cents].
    rewrite Hidf, Hidt, Hfrom, lookup_insert_eq, !lookup_new.
    split; [reflexivity|]. split; [reflexivity | lia]. }
  intros id Hnf Hnt. unfold stored. cbn [heap data set_balance ID].
  rewrite Hidf, Hidt. rewrite !lookup_insert_ne by congruence.
  destruct (d !! id) as [l|] eqn:Hd; [|reflexivity].
  apply lookup_app_l. exact (Hwf id l Hd).
Qed.

Lemma transfer_moves_money_witness :
  exists w',
    Execute rail_flaky (mkTransferInput "A" "B" 2500) sample_bank
    = Some ((mkTransferOutput 7500 2500, None), w')
    /\ stored w' "A" = Some (sample_account "A" 7500)
    /\ stored w' "B" = Some (sample_account "B" 2500).
Proof.
  destruct (transfer_moves_money rail_flaky sample_bank "A" "B"
              (sample_account "A" 10000) (sample_account "B" 0) 2500)
    as (w' & Hrun & Hsf & Hst & _).
  - exact sample_bank_well_formed.
  - discriminate.
  - reflexivity.
  - reflexivity.
  - reflexivity.
  - reflexivity.
  - lia.
  - vm_compute. congruence.
  - vm_compute. congruence.
  - vm_compute. congruence.
  - vm_compute. congruence.
  - vm_compute. reflexivity.
  - exists w'. split; [exact Hrun|]. split; [exact Hsf | exact Hst].
Defined.

Lemma transfer_unknown_account_run {G : Type} `{PaymentGateway G}
    (g : G) (w : World) (input : TransferInput) :
  well_formed w ->
  stored w (FromID input) = None \/ stored w (ToID input) = None ->
  exists w', Execute g input w = Some ((no_output, Some ErrNotFound), w').
Proof.
  intros Hwf Hmiss. destruct w as [h d c].
  assert (Hnone : forall id, stored (mkWorld h d c) id = None -> d !! id = None).
  { intros id Hs. unfold stored in Hs. cbn [heap data] in Hs.
    destruct (d !! id) as [l|] eqn:Hd; [|reflexivity].
    destruct (lookup_lt_is_Some_2 h l (Hwf _ _ Hd)) as [a Hl]. congruence. }
  destruct (d !! FromID input) as [lf|] eqn:Hdf.
  - destruct (lookup_lt_is_Some_2 h lf (Hwf _ _ Hdf)) as [af Hlf].
    destruct Hmiss as [Hsf|Hst];
      [apply Hnone in Hsf; congruence|apply Hnone in Hst].
    rewrite (Execute_destination_missing g input h d c lf af Hdf Hlf Hst).
    eexists. reflexivity.
  - rewrite (Execute_source_missing g input (mkWorld h d c) Hdf).
    eexists. reflexivity.
Qed.

(** X14. A transfer that names an id that is not present returns "not
    found" with the zero output after at most the two reads: the gateway is
    not called, nothing is saved or published, and every id holds what it
    held before. *)
Theorem transfer_unknown_account {G : Type} `{PaymentGateway G}
    (g : G) (w : World) (input : TransferInput) :
  well_formed w ->
  stored w (FromID input) = None \/ stored w (ToID input) = None ->
  exists w' extra,
    Execute g input w = Some ((no_output, Some ErrNotFound), w')
    /\ calls w' = calls w ++ extra
    /\ forallb (fun c => match c with CallByID _ => true | _ => false end) extra
       = true
    /\ data w' = data w
    /\ (forall id, stored w' id = stored w id).
Proof.
  intros Hwf Hmiss. destruct w as [h d c].
  assert (Hnone : forall id, stored (mkWorld h d c) id = None -> d !! id = None).
  { intros id Hs. unfold stored in Hs. cbn [heap data] in Hs.
    destruct (d !! id) as [l|] eqn:Hd; [|reflexivity].
    destruct (lookup_lt_is_Some_2 h l (Hwf _ _ Hd)) as [a Hl]. congruence. }
  destruct (d !! FromID input) as [lf|] eqn:Hdf.
  - destruct (lookup_lt_is_Some_2 h lf (Hwf _ _ Hdf)) as [af Hlf].
    destruct Hmiss as [Hsf|Hst];
      [apply Hnone in Hsf; congruence|apply Hnone in Hst].
    rewrite (Execute_destination_missing g input h d c lf af Hdf Hlf Hst).
    do 2 eexists. split; [reflexivity|]. cbn [heap data calls].
    split; [reflexivity|]. split; [reflexivity|]. split; [reflexivity|].
    intros id. apply stored_old. intros l Hl. exact (Hwf id l Hl).
  - rewrite (Execute_source_missing g input (mkWorld h d c) Hdf).
    do 2 eexists. split; [reflexivity|]. cbn [heap data calls].
    repeat split; reflexivity.
Qed.

Lemma transfer_unknown_account_witness :
  exists w',
    Execute rail_up (mkTransferInput "A" "Z" 10) sample_bank
    = Some ((no_output, Some ErrNotFound), w')
    /\ stored w' "A" = Some (sample_account "A" 10000).
Proof.
  destruct (transfer_unknown_account rail_up sample_bank
              (mkTransferInput "A" "Z" 10) sample_bank_well_formed
              ltac:(right; reflexivity))
    as (w' & extra & Hrun & _ & _ & _ & Hframe).
  exists w'. split; [exact Hrun|]. rewrite Hframe. reflexivity.
Defined.

(** X15. A transfer is all or nothing. If [Execute] returns an error, the
    output is the zero value, every id holds what it held before and neither
    [Save] nor [Publish] was called. If it returns a nil error, the gateway
    said OK and the calls were, in this order, the two reads, one
    [SendTransfer], [Save] of the source snapshot, [Save] of the destination
    snapshot (another cell) and one [Publish]. *)
Theorem Execute_all_or_nothing {G : Type} `{PaymentGateway G}
    (g : G) (input : TransferInput) (w : World) out err w' :
  well_formed w ->
  Execute g input w = Some ((out, err), w') ->
  match err with
  | Some e =>
    out = no_output
    /\ data w' = data w
    /\ (forall id, stored w' id = stored w id)
    /\ exists extra,
         calls w' = calls w ++ extra
         /\ forallb (fun c => match c with
                              | CallSave _ | CallPublish _ _ _ _ => false
                              | _ => true
                              end) extra = true
  | None =>
    gateway_SendTransfer g (FromID input) (ToID input) (Cents input)
    = Some ("OK", None)
    /\ exists p q,
         p <> q
         /\ calls w' = calls w ++
              [CallByID (FromID input); CallByID (ToID input);
               CallSendTransfer (FromID input) (ToID input) (Cents input);
               CallSave (Some p); CallSave (Some q);
               CallPublish "transfer.completed"
                 (FromID input) (ToID input) (Cents input)]
  end.
Proof.
  intros Hwf Hrun. destruct w as [h d c]. cbn [heap data calls] in *.
  destruct (d !! FromID input) as [lf|] eqn:Hdf.
  2:{ rewrite Execute_source_missing in Hrun by assumption.
      cbn [heap data calls] in Hrun. inversion Hrun; subst.
      cbn [heap data calls]. repeat split.
      eexists. split; reflexivity. }
  destruct (lookup_lt_is_Some_2 h lf (Hwf _ _ Hdf)) as [af Hlf].
  destruct (d !! ToID input) as [lt|] eqn:Hdt.
  2:{ erewrite Execute_destination_missing in Hrun by eassumption.
      inversion Hrun; subst. cbn [heap data calls].
      split; [reflexivity|]. split; [reflexivity|].
      split; [intros id; apply stored_old; intros l Hl; exact (Hwf id l Hl)|].
      eexists. split; reflexivity. }
  destruct (lookup_lt_is_Some_2 h lt (Hwf _ _ Hdt)) as [at' Hlt].
  rewrite (Execute_both_found g input h d c lf lt af at' Hdf Hlf Hdt Hlt) in Hrun.
  cbv zeta in Hrun.
  assert (Hframe : forall cells c' id,
            stored (mkWorld (h ++ cells) d c') id = stored (mkWorld h d c) id).
  { intros cells c' id. apply stored_old. intros l Hl. exact (Hwf id l Hl). }
  destruct (snd (Debit af (Cents input))) as [e1|].
  { inversion Hrun; subst. cbn [heap data calls].
    split; [reflexivity|]. split; [reflexivity|]. split; [intros; apply Hframe|].
    eexists. split; reflexivity. }
  destruct (snd (Credit at' (Cents input))) as [e2|].
  { inversion Hrun; subst. cbn [heap data calls].
    split; [reflexivity|]. split; [reflexivity|]. split; [intros; apply Hframe|].
    eexists. split; reflexivity. }
  destruct (gateway_SendTransfer g (FromID input) (ToID input) (Cents input))
    as [[status [e3|]]|]; [| |discriminate].
  { inversion Hrun; subst. cbn [heap data calls].
    split; [reflexivity|]. split; [reflexivity|]. split; [intros; apply Hframe|].
    rewrite <- ?app_assoc. eexists. split; reflexivity. }
  destruct (String.eqb status "OK") eqn:Eok; cbn [negb] in Hrun.
  - apply String.eqb_eq in Eok. subst status.
    inversion Hrun; subst. cbn [heap data calls].
    split; [reflexivity|].
    exists (length h + 0)%nat, (length h + 1)%nat. split; [lia|].
    rewrite <- ?app_assoc. reflexivity.
  - inversion Hrun; subst. cbn [heap data calls].
    split; [reflexivity|]. split; [reflexivity|]. split; [intros; apply Hframe|].
    rewrite <- ?app_assoc. eexists. split; reflexivity.
Qed.

Lemma Execute_all_or_nothing_witness :
  exists w',
    Execute rail_down (mkTransferInput "A" "B" 5000) sample_bank
    = Some ((no_output, Some ErrTransient), w')
    /\ (forall id, stored w' id = stored sample_bank id).
Proof.
  eexists. split; [vm_compute; reflexivity|].
  exact (proj1 (proj2 (proj2
    (Execute_all_or_nothing rail_down (mkTransferInput "A" "B" 5000) sample_bank
       no_output (Some ErrTransient) _ sample_bank_well_formed eq_refl)))).
Defined.

Lemma Execute_keeps_invariants_witness :
  exists r w',
    Execute rail_up (mkTransferInput "A" "B" 5000) sample_bank = Some (r, w')
    /\ well_formed w' /\ keyed_by_id w'.
Proof.
  do 2 eexists. split; [vm_compute; reflexivity|].
  eapply (Execute_keeps_invariants rail_up (mkTransferInput "A" "B" 5000)
            sample_bank).
  - exact sample_bank_well_formed.
  - intros id a Hs. unfold stored, sample_bank in Hs. cbn [heap data] in Hs.
    destruct (decide (id = "A")) as [->|HnA]; [inversion Hs; reflexivity|].
    destruct (decide (id = "B")) as [->|HnB]; [inversion Hs; reflexivity|].
    rewrite !lookup_insert_ne, lookup_empty in Hs by congruence. discriminate.
  - vm_compute. reflexivity.
Defined.

(** ** The backoff policy and the rail client, further *)

Lemma FullJitter_capped fpu draw attemptIndex baseDelay multiplier maxDelay :
  backoff.FullJitter fpu draw attemptIndex baseDelay multiplier maxDelay
  = backoff.Int63n draw
      (Int64.add (Z.min (fpu attemptIndex baseDelay multiplier) maxDelay) 1).
Proof.
  unfold backoff.FullJitter.
  destruct (fpu attemptIndex baseDelay multiplier >? maxDelay) eqn:E; bool_to_Z.
  - rewrite Z.min_r by lia. reflexivity.
  - rewrite Z.min_l by lia. reflexivity.
Qed.

(** X18. The integer stage of [FullJitter], for an [int64] exponential [e]
    coming out of the floating-point stage and an [int64] ceiling. With
    [capped = min e maxDelay]: when [0 <= capped < MaxInt64] a delay is always
    returned, it lies in the closed interval [0, capped], and every value of
    that interval is returned for some outcome of the random source; when
    [capped] is negative or equals [MaxInt64], [rand.Int63n] is handed an
    argument [<= 0] and the call panics whatever the random source does. *)
Theorem FullJitter_interval fpu attemptIndex baseDelay multiplier maxDelay :
  Int64.in_range (fpu attemptIndex baseDelay multiplier) ->
  Int64.in_range maxDelay ->
  let capped := Z.min (fpu attemptIndex baseDelay multiplier) maxDelay in
  (0 <= capped < Int64.MaxInt64 ->
   (forall draw, exists delay,
      backoff.FullJitter fpu draw attemptIndex baseDelay multiplier maxDelay
      = Some delay /\ 0 <= delay <= capped)
   /\ (forall delay, 0 <= delay <= capped ->
         backoff.FullJitter fpu delay attemptIndex baseDelay multiplier maxDelay
         = Some delay))
  /\ (capped < 0 \/ capped = Int64.MaxInt64 ->
      forall draw,
        backoff.FullJitter fpu draw attemptIndex baseDelay multiplier maxDelay
        = None).
Proof.
  intros He Hm capped.
  assert (Hcap : Int64.in_range capped).
  { subst capped. unfold Int64.in_range in *. lia. }
  split.
  - intros Hok. split.
    + intros draw. rewrite FullJitter_capped. fold capped.
      unfold backoff.Int63n, Int64.add.
      rewrite wrap_id
        by (unfold Int64.in_range, Int64.MinInt64, Int64.MaxInt64 in *; lia).
      replace (capped + 1 <=? 0) with false by (symmetry; apply Z.leb_gt; lia).
      eexists. split; [reflexivity|].
      pose proof (Z.mod_pos_bound draw (capped + 1) ltac:(lia)). lia.
    + intros delay Hd. rewrite FullJitter_capped. fold capped.
      unfold backoff.Int63n, Int64.add.
      rewrite wrap_id
        by (unfold Int64.in_range, Int64.MinInt64, Int64.MaxInt64 in *; lia).
      replace (capped + 1 <=? 0) with false by (symmetry; apply Z.leb_gt; lia).
      rewrite Z.mod_small by lia. reflexivity.
  - intros Hbad draw. rewrite FullJitter_capped. fold capped.
    unfold backoff.Int63n, Int64.add. destruct Hbad as [Hneg|Hmax].
    + rewrite wrap_id
        by (unfold Int64.in_range, Int64.MinInt64, Int64.MaxInt64 in *; lia).
      replace (capped + 1 <=? 0) with true by (symmetry; apply Z.leb_le; lia).
      reflexivity.
    + rewrite Hmax. vm_compute. reflexivity.
Qed.

Lemma FullJitter_interval_witness :
  (exists delay,
     backoff.FullJitter exact_fpu 12345678901 2 FakeSTP.baseDelay
       FakeSTP.multiplier FakeSTP.maxDelay = Some delay
     /\ 0 <= delay <= 800 * FakeSTP.Millisecond)
  /\ backoff.FullJitter exact_fpu 7 2 FakeSTP.baseDelay FakeSTP.multiplier (-1)
     = None.
Proof.
  split.
  - apply (proj1 (proj1 (FullJitter_interval exact_fpu 2 FakeSTP.baseDelay
                           FakeSTP.multiplier FakeSTP.maxDelay
                           ltac:(vm_compute; split; congruence)
                           ltac:(vm_compute; split; congruence))
                   ltac:(vm_compute; split; congruence))).
  - apply (proj2 (FullJitter_interval exact_fpu 2 FakeSTP.baseDelay
                    FakeSTP.multiplier (-1)
                    ltac:(vm_compute; split; congruence)
                    ltac:(vm_compute; split; congruence))).
    left. vm_compute. reflexivity.
Defined.

Lemma failed_round_events amb i :
  0 <= float_exponential amb i FakeSTP.baseDelay FakeSTP.multiplier ->
  exists sleepDuration,
    backoff.FullJitter (float_exponential amb) (jitter_draw (meets amb i))
      i FakeSTP.baseDelay FakeSTP.multiplier FakeSTP.maxDelay
    = Some sleepDuration
    /\ failed_round amb i = [FakeSTP.Attempt i; FakeSTP.Wait i sleepDuration].
Proof.
  intros Hfpu.
  destruct (FullJitter_within (float_exponential amb) (jitter_draw (meets amb i))
              i FakeSTP.baseDelay FakeSTP.multiplier FakeSTP.maxDelay Hfpu
              ltac:(vm_compute; split; congruence)) as (d & Hd & _).
  exists d. split; [exact Hd|]. unfold failed_round. rewrite Hd. reflexivity.
Qed.

(** [n] rounds that fail without cancellation take the loop from attempt
    [s] to attempt [s + n] and record exactly those rounds. *)
Lemma failed_rounds_skip amb : forall n fuel s seen,
  0 <= s -> s + Z.of_nat n <= FakeSTP.maxRetries ->
  (forall i, s <= i < s + Z.of_nat n ->
     rail_ok (meets amb i) = false /\ ctx_done (meets amb i) = false
     /\ 0 <= float_exponential amb i FakeSTP.baseDelay FakeSTP.multiplier) ->
  FakeSTP.attempts amb (n + fuel) s seen
  = FakeSTP.attempts amb fuel (s + Z.of_nat n) (seen ++ failed_rounds amb s n)
  /\ FakeSTP.count_attempts (failed_rounds amb s n) = n
  /\ FakeSTP.count_waits (failed_rounds amb s n) = n.
Proof.
  induction n as [|n IH]; intros fuel s seen Hs Hmax Hfail.
  - cbn [failed_rounds Nat.add]. rewrite Z.add_0_r, app_nil_r.
    repeat split.
  - destruct (Hfail s ltac:(lia)) as (Hno & Hctx & Hfpu).
    destruct (failed_round_events amb s Hfpu) as (d & Hjit & Hround).
    destruct (IH fuel (s + 1) ((seen ++ [FakeSTP.Attempt s]) ++ [FakeSTP.Wait s d])
                ltac:(lia) ltac:(lia)
                ltac:(intros i Hi; apply Hfail; lia))
      as (Hrun & Hca & Hcw).
    cbn [failed_rounds Nat.add FakeSTP.attempts].
    replace (s <=? FakeSTP.maxRetries) with true by (symmetry; apply Z.leb_le; lia).
    rewrite Hno.
    replace (s =? FakeSTP.maxRetries) with false by (symmetry; apply Z.eqb_neq; lia).
    rewrite Hjit, Hctx, Hrun, Hround.
    split; [|split].
    + f_equal; [lia|]. rewrite <- !app_assoc. reflexivity.
    + cbn. rewrite Hca. reflexivity.
    + cbn. rewrite Hcw. reflexivity.
Qed.

Lemma count_waits_app xs ys :
  FakeSTP.count_waits (xs ++ ys)
  = (FakeSTP.count_waits xs + FakeSTP.count_waits ys)%nat.
Proof.
  induction xs as [|[i|i d] xs IH]; simpl; [reflexivity | exact IH | rewrite IH; reflexivity].
Qed.

(** X19. Retries go on until the first success: if the attempts [0..k-1]
    fail (with [k <= maxRetries]), nobody cancels during the waits, and
    attempt [k] succeeds, [SendTransfer] returns OK with a nil error after
    exactly [k + 1] attempts and [k] waits, the successful attempt being the
    last thing it does. *)
Theorem rail_succeeds_after_failures (amb : Ambient) (fromID toID : string)
    (cents : Z) (k : nat) :
  Z.of_nat k <= FakeSTP.maxRetries ->
  (forall i, 0 <= i < Z.of_nat k ->
     rail_ok (meets amb i) = false /\ ctx_done (meets amb i) = false
     /\ 0 <= float_exponential amb i FakeSTP.baseDelay FakeSTP.multiplier) ->
  rail_ok (meets amb (Z.of_nat k)) = true ->
  FakeSTP.SendTransfer amb fromID toID cents
  = Some (FakeSTP.Returns "OK" None,
          failed_rounds amb 0 k ++ [FakeSTP.Attempt (Z.of_nat k)])
  /\ FakeSTP.count_attempts
       (failed_rounds amb 0 k ++ [FakeSTP.Attempt (Z.of_nat k)]) = S k
  /\ FakeSTP.count_waits
       (failed_rounds amb 0 k ++ [FakeSTP.Attempt (Z.of_nat k)]) = k.
Proof.
  intros Hk Hfail Hok. unfold FakeSTP.maxRetries in Hk.
  destruct (failed_rounds_skip amb k (6 - k) 0 [] ltac:(lia)
              ltac:(unfold FakeSTP.maxRetries; lia) Hfail) as (Hskip & Hca & Hcw).
  unfold FakeSTP.SendTransfer.
  replace (S (Z.to_nat (FakeSTP.maxRetries + 1))) with (k + (6 - k))%nat
    by (unfold FakeSTP.maxRetries; lia).
  rewrite Hskip. cbn [app]. rewrite Z.add_0_l.
  destruct (6 - k)%nat as [|fuel] eqn:Efuel; [lia|].
  cbn [FakeSTP.attempts].
  replace (Z.of_nat k <=? FakeSTP.maxRetries) with true
    by (symmetry; apply Z.leb_le; unfold FakeSTP.maxRetries; lia).
  rewrite Hok. split; [reflexivity|].
  rewrite count_attempts_app, count_waits_app, Hca, Hcw. cbn. split; lia.
Qed.

Lemma rail_succeeds_after_failures_witness :
  exists seen,
    FakeSTP.SendTransfer rail_flaky "A" "B" 2500
    = Some (FakeSTP.Returns "OK" None, seen)
    /\ FakeSTP.count_attempts seen = 3%nat
    /\ FakeSTP.count_waits seen = 2%nat.
Proof.
  eexists.
  apply (rail_succeeds_after_failures rail_flaky "A" "B" 2500 2).
  - vm_compute. congruence.
  - intros i Hi. assert (i = 0 \/ i = 1) as [-> | ->] by lia;
      (split; [reflexivity|]; split; [reflexivity|]; vm_compute; congruence).
  - reflexivity.
Defined.

(** X20. When every one of the five attempts fails and nobody cancels during
    the four waits, [SendTransfer] returns FAILED with the transient error
    after exactly five attempts and four waits, the fifth attempt being the
    last thing it does. *)
Theorem rail_gives_up_after_five (amb : Ambient) (fromID toID : string)
    (cents : Z) :
  (forall i, 0 <= i <= FakeSTP.maxRetries -> rail_ok (meets amb i) = false) ->
  (forall i, 0 <= i < FakeSTP.maxRetries ->
     ctx_done (meets amb i) = false
     /\ 0 <= float_exponential amb i FakeSTP.baseDelay FakeSTP.multiplier) ->
  FakeSTP.SendTransfer amb fromID toID cents
  = Some (FakeSTP.Returns "FAILED" (Some ErrTransient),
          failed_rounds amb 0 4 ++ [FakeSTP.Attempt 4])
  /\ FakeSTP.count_attempts (failed_rounds amb 0 4 ++ [FakeSTP.Attempt 4]) = 5%nat
  /\ FakeSTP.count_waits (failed_rounds amb 0 4 ++ [FakeSTP.Attempt 4]) = 4%nat.
Proof.
  intros Hno Hquiet. unfold FakeSTP.maxRetries in *.
  destruct (failed_rounds_skip amb 4 2 0 [] ltac:(lia)
              ltac:(unfold FakeSTP.maxRetries; lia)
              ltac:(intros i Hi; split; [apply Hno; lia | apply Hquiet; lia]))
    as (Hskip & Hca & Hcw).
  unfold FakeSTP.SendTransfer.
  change (S (Z.to_nat (FakeSTP.maxRetries + 1))) with (4 + 2)%nat.
  rewrite Hskip. cbn [app FakeSTP.attempts].
  change (0 + Z.of_nat 4) with 4.
  change (4 <=? FakeSTP.maxRetries) with true.
  change (4 =? FakeSTP.maxRetries) with true.
  rewrite (Hno 4) by lia. cbn iota.
  split; [reflexivity|].
  rewrite count_attempts_app, count_waits_app, Hca, Hcw. split; reflexivity.
Qed.

Lemma rail_gives_up_after_five_witness :
  exists seen,
    FakeSTP.SendTransfer rail_down "A" "B" 1
    = Some (FakeSTP.Returns "FAILED" (Some ErrTransient), seen)
    /\ FakeSTP.count_attempts seen = 5%nat
    /\ FakeSTP.count_waits seen = 4%nat.
Proof.
  eexists. apply (rail_gives_up_after_five rail_down "A" "B" 1).
  - intros i _. reflexivity.
  - intros i Hi. split; [reflexivity|].
    unfold FakeSTP.maxRetries in Hi.
    assert (i = 0 \/ i = 1 \/ i = 2 \/ i = 3) as [-> | [-> | [-> | ->]]] by lia;
      vm_compute; congruence.
Defined.

Lemma failed_rounds_snoc amb : forall n s,
  failed_rounds amb s (S n)
  = failed_rounds amb s n ++ failed_round amb (s + Z.of_nat n).
Proof.
  induction n as [|n IHn]; intros s.
  - cbn [failed_rounds]. rewrite app_nil_r, Z.add_0_r. reflexivity.
  - change (failed_rounds amb s (S (S n)))
      with (failed_round amb s ++ failed_rounds amb (s + 1) (S n)).
    rewrite IHn. cbn [failed_rounds]. rewrite <- app_assoc.
    do 3 f_equal. lia.
Qed.

Lemma failed_rounds_indices amb : forall n s j,
  In (FakeSTP.Attempt j) (failed_rounds amb s n) -> s <= j < s + Z.of_nat n.
Proof.
  induction n as [|n IHn]; intros s j Hj; [destruct Hj|].
  cbn [failed_rounds] in Hj. apply in_app_or in Hj as [Hj|Hj].
  - unfold failed_round in Hj.
    destruct (backoff.FullJitter (float_exponential amb)
                (jitter_draw (meets amb s)) s FakeSTP.baseDelay
                FakeSTP.multiplier FakeSTP.maxDelay); cbn [In] in Hj;
      repeat (destruct Hj as [Hj|Hj]; [try discriminate; inversion Hj; lia|]);
      destruct Hj.
  - apply IHn in Hj. lia.
Qed.

(** X21. A cancellation observed during the wait after a failed attempt
    [k < maxRetries] ends the call: if the attempts [0..k] fail, nobody
    cancels during the waits before, and the context is done during the wait
    after attempt [k], [SendTransfer] returns CANCELLED with the context's
    error after exactly [k + 1] attempts and [k + 1] waits, and attempt
    [k + 1] is never made. *)
Theorem rail_cancelled_during_wait (amb : Ambient) (fromID toID : string)
    (cents : Z) (k : nat) :
  Z.of_nat k < FakeSTP.maxRetries ->
  (forall i, 0 <= i <= Z.of_nat k ->
     rail_ok (meets amb i) = false
     /\ 0 <= float_exponential amb i FakeSTP.baseDelay FakeSTP.multiplier) ->
  (forall i, 0 <= i < Z.of_nat k -> ctx_done (meets amb i) = false) ->
  ctx_done (meets amb (Z.of_nat k)) = true ->
  FakeSTP.SendTransfer amb fromID toID cents
  = Some (FakeSTP.Returns "CANCELLED" (Some ErrContext),
          failed_rounds amb 0 (S k))
  /\ FakeSTP.count_attempts (failed_rounds amb 0 (S k)) = S k
  /\ FakeSTP.count_waits (failed_rounds amb 0 (S k)) = S k
  /\ ~ In (FakeSTP.Attempt (Z.of_nat k + 1)) (failed_rounds amb 0 (S k)).
Proof.
  intros Hk Hfail Hquiet Hctx. unfold FakeSTP.maxRetries in Hk.
  destruct (failed_rounds_skip amb k (6 - k) 0 [] ltac:(lia)
              ltac:(unfold FakeSTP.maxRetries; lia)
              ltac:(intros i Hi; destruct (Hfail i ltac:(lia)) as [Hno Hfpu];
                    repeat split; [exact Hno | apply Hquiet; lia | exact Hfpu]))
    as (Hskip & Hca & Hcw).
  destruct (Hfail (Z.of_nat k) ltac:(lia)) as [Hno Hfpu].
  destruct (failed_round_events amb (Z.of_nat k) Hfpu) as (d & Hjit & Hround).
  rewrite (failed_rounds_snoc amb k 0), Z.add_0_l, Hround.
  unfold FakeSTP.SendTransfer.
  replace (S (Z.to_nat (FakeSTP.maxRetries + 1))) with (k + (6 - k))%nat
    by (unfold FakeSTP.maxRetries; lia).
  rewrite Hskip. cbn [app]. rewrite Z.add_0_l.
  destruct (6 - k)%nat as [|fuel] eqn:Efuel; [lia|].
  cbn [FakeSTP.attempts].
  replace (Z.of_nat k <=? FakeSTP.maxRetries) with true
    by (symmetry; apply Z.leb_le; unfold FakeSTP.maxRetries; lia).
  replace (Z.of_nat k =? FakeSTP.maxRetries) with false
    by (symmetry; apply Z.eqb_neq; unfold FakeSTP.maxRetries; lia).
  rewrite Hno, Hjit, Hctx.
  split; [rewrite <- app_assoc; reflexivity|].
  rewrite count_attempts_app, count_waits_app, Hca, Hcw. cbn.
  split; [lia|]. split; [lia|].
  intros Hin. apply in_app_or in Hin as [Hin|[Hin|[Hin|[]]]];
    [|inversion Hin; lia|discriminate].
  apply failed_rounds_indices in Hin. lia.
Qed.

Lemma rail_cancelled_during_wait_witness :
  let amb := mkAmbient exact_fpu (fun i => mkOutcome false 5 (1 <=? i)) in
  exists seen,
    FakeSTP.SendTransfer amb "A" "B" 1
    = Some (FakeSTP.Returns "CANCELLED" (Some ErrContext), seen)
    /\ FakeSTP.count_attempts seen = 2%nat.
Proof.
  intros amb.
  destruct (rail_cancelled_during_wait amb "A" "B" 1 1) as (Hrun & Hca & _).
  - vm_compute. reflexivity.
  - intros i Hi. split; [reflexivity|].
    assert (i = 0 \/ i = 1) as [-> | ->] by lia; vm_compute; congruence.
  - intros i Hi. assert (i = 0) as -> by lia. reflexivity.
  - reflexivity.
  - eexists. split; [exact Hrun | exact Hca].
Defined.

Lemma attempts_shape amb : forall fuel k seen r out,
  0 <= k <= FakeSTP.maxRetries ->
  FakeSTP.attempts amb fuel k seen = Some (r, out) ->
  (r = FakeSTP.Returns "OK" None
   \/ r = FakeSTP.Returns "FAILED" (Some ErrTransient)
   \/ r = FakeSTP.Returns "CANCELLED" (Some ErrContext)
   \/ r = FakeSTP.Panics)
  /\ exists new,
       out = seen ++ new
       /\ (FakeSTP.count_waits new <= Z.to_nat (FakeSTP.maxRetries - k))%nat
       /\ (forall i d, In (FakeSTP.Wait i d) new ->
             k <= i < FakeSTP.maxRetries
             /\ rail_ok (meets amb i) = false
             /\ backoff.FullJitter (float_exponential amb)
                  (jitter_draw (meets amb i)) i FakeSTP.baseDelay
                  FakeSTP.multiplier FakeSTP.maxDelay = Some d).
Proof.
  induction fuel as [|fuel IH]; intros k seen r out Hk Hrun; [discriminate|].
  cbn [FakeSTP.attempts] in Hrun.
  replace (k <=? FakeSTP.maxRetries) with true in Hrun
    by (symmetry; apply Z.leb_le; lia).
  destruct (rail_ok (meets amb k)) eqn:Eok.
  { inversion Hrun; subst. split; [auto|].
    exists [FakeSTP.Attempt k]. split; [reflexivity|]. split; [cbn; lia|].
    intros i d [Hin|[]]. discriminate. }
  destruct (k =? FakeSTP.maxRetries) eqn:Elast; bool_to_Z.
  { inversion Hrun; subst. split; [auto|].
    exists [FakeSTP.Attempt FakeSTP.maxRetries].
    split; [reflexivity|]. split; [cbn; lia|].
    intros i d [Hin|[]]. discriminate. }
  destruct (backoff.FullJitter (float_exponential amb) (jitter_draw (meets amb k))
              k FakeSTP.baseDelay FakeSTP.multiplier FakeSTP.maxDelay)
    as [sleepDuration|] eqn:Ejit.
  2:{ inversion Hrun; subst. split; [auto|].
      exists [FakeSTP.Attempt k]. split; [reflexivity|]. split; [cbn; lia|].
      intros i d [Hin|[]]. discriminate. }
  destruct (ctx_done (meets amb k)) eqn:Ectx.
  { inversion Hrun; subst. split; [auto|].
    exists [FakeSTP.Attempt k; FakeSTP.Wait k sleepDuration].
    rewrite <- app_assoc. split; [reflexivity|].
    split; [cbn; unfold FakeSTP.maxRetries in *; lia|].
    intros i d [Hin|[Hin|[]]]; [discriminate|].
    inversion Hin; subst. repeat split; try assumption; lia. }
  destruct (IH (k + 1) _ r out ltac:(lia) Hrun)
    as (Hclass & new & -> & Hcount & Hwaits).
  split; [exact Hclass|].
  exists ([FakeSTP.Attempt k; FakeSTP.Wait k sleepDuration] ++ new).
  split; [rewrite <- !app_assoc; reflexivity|].
  split; [rewrite count_waits_app; cbn; unfold FakeSTP.maxRetries in *; lia|].
  intros i d [Hin|[Hin|Hin]]; [discriminate| |].
  - inversion Hin; subst. repeat split; try assumption; lia.
  - destruct (Hwaits i d Hin) as (Hi & Hno & Hd).
    repeat split; try assumption; lia.
Qed.

(** X22. Whatever the random source, the context and the floating-point
    stage do, [SendTransfer] ends in one of four ways: OK with a nil error,
    FAILED with the transient error, CANCELLED with the context's error, or a
    panic out of [rand.Int63n]; the defensive "unreachable" return is never
    taken, and a nil error comes with the status OK only. It waits at most
    four times, each time after a failed attempt 0..3, and as long as the
    floating-point stage yields an [int64] each wait lasts between 0 and
    [maxDelay] = 3 s. *)
Theorem rail_result_shape (amb : Ambient) (fromID toID : string) (cents : Z) :
  exists r seen,
    FakeSTP.SendTransfer amb fromID toID cents = Some (r, seen)
    /\ (r = FakeSTP.Returns "OK" None
        \/ r = FakeSTP.Returns "FAILED" (Some ErrTransient)
        \/ r = FakeSTP.Returns "CANCELLED" (Some ErrContext)
        \/ r = FakeSTP.Panics)
    /\ (FakeSTP.count_waits seen <= 4)%nat
    /\ (forall i d, In (FakeSTP.Wait i d) seen ->
          0 <= i <= 3
          /\ rail_ok (meets amb i) = false
          /\ (Int64.in_range
                (float_exponential amb i FakeSTP.baseDelay FakeSTP.multiplier) ->
              0 <= d <= 3 * FakeSTP.Second)).
Proof.
  destruct (attempts_from amb (S (Z.to_nat (FakeSTP.maxRetries + 1))) 0 []
              ltac:(lia) ltac:(vm_compute; lia)) as (r & new & Hrun & _).
  exists r, new. unfold FakeSTP.SendTransfer.
  split; [exact Hrun|].
  destruct (attempts_shape amb _ 0 [] r _ ltac:(unfold FakeSTP.maxRetries; lia) Hrun)
    as (Hclass & new' & Heq & Hcount & Hwaits).
  cbn [app] in Heq. subst new'.
  split; [exact Hclass|]. split; [exact Hcount|].
  intros i d Hin. destruct (Hwaits i d Hin) as (Hi & Hno & Hd).
  split; [unfold FakeSTP.maxRetries in Hi; lia|]. split; [exact Hno|].
  intros He. rewrite FullJitter_capped in Hd.
  unfold backoff.Int63n, Int64.add in Hd.
  set (e := float_exponential amb i FakeSTP.baseDelay FakeSTP.multiplier) in *.
  assert (Hmax : FakeSTP.maxDelay = 3 * FakeSTP.Second) by reflexivity.
  assert (H3 : 3 * FakeSTP.Second = 3000000000) by reflexivity.
  rewrite wrap_id in Hd
    by (unfold Int64.in_range, Int64.MinInt64, Int64.MaxInt64 in *; lia).
  destruct (Z.min e FakeSTP.maxDelay + 1 <=? 0) eqn:En; [discriminate|].
  bool_to_Z. inversion Hd; subst d.
  pose proof (Z.mod_pos_bound (jitter_draw (meets amb i))
                (Z.min e FakeSTP.maxDelay + 1) ltac:(lia)). lia.
Qed.

Lemma rail_result_shape_witness :
  exists r seen,
    FakeSTP.SendTransfer rail_down "A" "B" 1 = Some (r, seen)
    /\ In (FakeSTP.Wait 2 345678886) seen
    /\ 0 <= 345678886 <= 3 * FakeSTP.Second.
Proof.
  destruct (rail_result_shape rail_down "A" "B" 1)
    as (r & seen & Hrun & _ & _ & Hwaits).
  assert (Hseen : Some (r, seen) = FakeSTP.SendTransfer rail_down "A" "B" 1)
    by (symmetry; exact Hrun).
  vm_compute in Hseen. injection Hseen as Hr Hseen.
  assert (Hin : In (FakeSTP.Wait 2 345678886) seen)
    by (subst seen; do 5 right; left; reflexivity).
  exists r, seen. split; [exact Hrun|]. split; [exact Hin|].
  apply (Hwaits 2 345678886 Hin). vm_compute. split; congruence.
Defined.

(** ** Identifiers *)

Lemma hex_digit_in_table n :
  0 <= n < 16 -> In (hex.digit n) (list_ascii_of_string hex.hextable).
Proof.
  intros Hn.
  assert (Hall : forallb
            (fun i => existsb (Ascii.eqb (hex.digit (Z.of_nat i)))
                        (list_ascii_of_string hex.hextable))
            (seq 0 16) = true) by (vm_compute; reflexivity).
  rewrite forallb_forall in Hall.
  specialize (Hall (Z.to_nat n) ltac:(apply in_seq; lia)).
  rewrite Z2Nat.id in Hall by lia.
  apply existsb_exists in Hall as (ch & Hin & Heq).
  apply Ascii.eqb_eq in Heq. rewrite Heq. exact Hin.
Qed.

Lemma hex_digit_injective n m :
  0 <= n < 16 -> 0 <= m < 16 -> hex.digit n = hex.digit m -> n = m.
Proof.
  intros Hn Hm Heq.
  assert (Hall : forallb
            (fun i => forallb
               (fun j => implb (Ascii.eqb (hex.digit (Z.of_nat i))
                                          (hex.digit (Z.of_nat j)))
                               (Nat.eqb i j))
               (seq 0 16))
            (seq 0 16) = true) by (vm_compute; reflexivity).
  rewrite forallb_forall in Hall.
  specialize (Hall (Z.to_nat n) ltac:(apply in_seq; lia)).
  rewrite forallb_forall in Hall.
  specialize (Hall (Z.to_nat m) ltac:(apply in_seq; lia)).
  rewrite !Z2Nat.id in Hall by lia.
  rewrite Heq, Ascii.eqb_refl in Hall. cbn [implb] in Hall.
  apply Nat.eqb_eq in Hall. lia.
Qed.

Lemma nibbles b :
  0 <= b < 256 ->
  0 <= Z.shiftr b 4 < 16 /\ 0 <= Z.land b 15 < 16
  /\ b = 16 * Z.shiftr b 4 + Z.land b 15.
Proof.
  intros Hb. rewrite Z.shiftr_div_pow2 by lia.
  change 15 with (Z.ones 4). rewrite Z.land_ones by lia.
  change (2 ^ 4) with 16.
  pose proof (Z.div_mod b 16 ltac:(lia)).
  pose proof (Z.mod_pos_bound b 16 ltac:(lia)).
  assert (0 <= b / 16 < 16)
    by (split; [apply Z.div_pos; lia | apply Z.div_lt_upper_bound; lia]).
  lia.
Qed.

(** X23. [id.New]: with 12 bytes of entropy the id has exactly 24
    characters, each one of [0123456789abcdef]; different entropy gives
    different ids (the encoding loses nothing); and when [rand.Read] fails
    there is no id, the call panics. *)
Theorem id_New_format :
  (forall buf,
     length buf = 12%nat -> Forall (fun b => 0 <= b < 256) buf ->
     exists newID,
       id_New (Some buf) = Some newID
       /\ String.length newID = 24%nat
       /\ Forall (fun ch => In ch (list_ascii_of_string hex.hextable))
                 (list_ascii_of_string newID))
  /\ (forall buf buf',
        Forall (fun b => 0 <= b < 256) buf ->
        Forall (fun b => 0 <= b < 256) buf' ->
        id_New (Some buf) = id_New (Some buf') -> buf = buf')
  /\ id_New None = None.
Proof.
  split; [|split; [|reflexivity]].
  - intros buf Hlen Hbytes. exists (hex.EncodeToString buf).
    split; [reflexivity|].
    assert (Hgen : String.length (hex.EncodeToString buf) = (2 * length buf)%nat
                   /\ Forall (fun ch => In ch (list_ascii_of_string hex.hextable))
                             (list_ascii_of_string (hex.EncodeToString buf))).
    { clear Hlen. induction Hbytes as [|b rest Hb Hrest [IHlen IHall]].
      - split; [reflexivity | constructor].
      - destruct (nibbles b Hb) as (Hhi & Hlo & _).
        cbn [hex.EncodeToString String.length list_ascii_of_string length].
        split; [rewrite IHlen; lia|].
        constructor; [apply hex_digit_in_table; assumption|].
        constructor; [apply hex_digit_in_table; assumption|].
        exact IHall. }
    destruct Hgen as [Hl Hall]. rewrite Hl, Hlen. split; [reflexivity | exact Hall].
  - intros buf buf' Hbytes. revert buf'.
    induction Hbytes as [|b rest Hb Hrest IH]; intros buf' Hbytes' Heq;
      destruct Hbytes' as [|b' rest' Hb' Hrest']; cbn in Heq;
      try reflexivity; try discriminate.
    inversion Heq as [[Hhi Hlo Htail]].
    destruct (nibbles b Hb) as (Hh & Hl & Hsplit).
    destruct (nibbles b' Hb') as (Hh' & Hl' & Hsplit').
    apply hex_digit_injective in Hhi; [|assumption|assumption].
    apply hex_digit_injective in Hlo; [|assumption|assumption].
    f_equal; [lia|].
    apply IH; [assumption|]. cbn. rewrite Htail. reflexivity.
Qed.

Lemma id_New_format_witness :
  exists newID,
    id_New (Some [156; 68; 208; 216; 240; 243; 64; 245; 100; 183; 241; 194])
    = Some newID
    /\ String.length newID = 24%nat.
Proof.
  destruct (proj1 id_New_format
              [156; 68; 208; 216; 240; 243; 64; 245; 100; 183; 241; 194]
              eq_refl
              ltac:(repeat constructor; lia))
    as (newID & Hid & Hlen & _).
  exists newID. split; [exact Hid | exact Hlen].
Defined.

(** ** Opening an account *)

(** [OpenAccount_Execute] once the CLABE has been accepted, case by case. *)
Lemma OpenAccount_valid entropy input h d c normalized :
  NewCLABE (OpenAccountInput_CLABE input) = (mkCLABE normalized, None) ->
  OpenAccount_Execute entropy input (mkWorld h d c) =
  match entropy with
  | None => None
  | Some buf =>
    let newID := hex.EncodeToString buf in
    let holder := OpenAccountInput_HolderName input in
    let a := mkAccount newID holder (mkCLABE normalized) 0 in
    if GoString.TrimSpace_empty holder
    then Some ((no_account, Some ErrEmptyHolder), mkWorld h d c)
    else match d !! newID with
         | Some _ =>
           Some ((no_account, Some ErrAlreadyExists),
                 mkWorld (h ++ [a]) d (c ++ [CallCreate (Some (length h))]))
         | None =>
           Some ((mkOpenAccountOutput newID holder normalized 0, None),
                 mkWorld ((h ++ [a]) ++ [a])
                   (<[newID := length (h ++ [a])]> d)
                   (c ++ [CallCreate (Some (length h))]))
         end
  end.
Proof.
  intros Hclabe. unfold OpenAccount_Execute. rewrite Hclabe.
  destruct entropy as [buf|]; [|reflexivity].
  cbn [id_New]. cbv zeta. unfold NewAccountPtr, NewAccount.
  destruct (GoString.TrimSpace_empty (OpenAccountInput_HolderName input)).
  { reflexivity. }
  set (a := mkAccount (hex.EncodeToString buf) (OpenAccountInput_HolderName input)
              (mkCLABE normalized) 0).
  run_step by (run_step by reflexivity; reflexivity).
  cbn [heap data calls].
  destruct (d !! hex.EncodeToString buf) as [l|] eqn:Hd.
  - run_step by (apply (Create_existing (mkWorld (h ++ [a]) d c) (length h) a l);
                 [cbn [heap]; rewrite lookup_app_r, Nat.sub_diag by lia; reflexivity
                 |exact Hd]).
    reflexivity.
  - run_step by (apply (Create_fresh (mkWorld (h ++ [a]) d c) (length h) a);
                 [cbn [heap]; rewrite lookup_app_r, Nat.sub_diag by lia; reflexivity
                 |exact Hd]).
    cbn [heap data calls ID].
    run_step by (unfold load; cbn [heap];
                 rewrite lookup_app_l by (rewrite length_app; cbn; lia);
                 rewrite lookup_app_r, Nat.sub_diag by lia; reflexivity).
    reflexivity.
Qed.

(** X24. Opening an account with an input that [NewCLABE] accepts, a holder
    name that is not blank, entropy for the id, and an id that is not taken:
    the output carries the new id, the holder name as given, the normalized
    CLABE and balance 0, with a nil error; afterwards the store holds that
    account with balance 0 under the new id, every other id holds what it
    held before, and the store stays well-formed and filed by id. *)
Theorem OpenAccount_opens (w : World) (buf : list Z) (input : OpenAccountInput) :
  well_formed w -> keyed_by_id w ->
  eighteen_digits (GoString.remove_spaces (OpenAccountInput_CLABE input)) = true ->
  GoString.TrimSpace_empty (OpenAccountInput_HolderName input) = false ->
  stored w (hex.EncodeToString buf) = None ->
  let newID := hex.EncodeToString buf in
  let normalized := GoString.remove_spaces (OpenAccountInput_CLABE input) in
  let a := mkAccount newID (OpenAccountInput_HolderName input)
             (mkCLABE normalized) 0 in
  exists w',
    OpenAccount_Execute (Some buf) input w
    = Some ((mkOpenAccountOutput newID (OpenAccountInput_HolderName input)
               normalized 0, None), w')
    /\ stored w' newID = Some a
    /\ (forall id, id <> newID -> stored w' id = stored w id)
    /\ well_formed w' /\ keyed_by_id w'.
Proof.
  intros Hwf Hkey H18 Hholder Hfree newID normalized a.
  subst newID normalized a.
  set (newID := hex.EncodeToString buf) in *.
  set (a := mkAccount newID (OpenAccountInput_HolderName input)
              (mkCLABE (GoString.remove_spaces (OpenAccountInput_CLABE input))) 0).
  destruct w as [h d c].
  assert (Hd : d !! newID = None).
  { unfold stored in Hfree. cbn [heap data] in Hfree.
    destruct (d !! newID) as [l|] eqn:Hd; [|reflexivity].
    destruct (lookup_lt_is_Some_2 h l (Hwf _ _ Hd)) as [x Hx]. congruence. }
  rewrite (OpenAccount_valid (Some buf) input h d c
             (GoString.remove_spaces (OpenAccountInput_CLABE input)))
    by (rewrite NewCLABE_cases, H18; reflexivity).
  cbv zeta. rewrite Hholder. fold newID. rewrite Hd. fold a.
  assert (Hida : ID a = newID) by reflexivity.
  destruct (more_cells_invariants h d c [a] c Hwf Hkey) as [Hwf1 Hkey1].
  destruct (filed_cell_invariants (h ++ [a]) d c a
              (c ++ [CallCreate (Some (length h))]) Hwf1 Hkey1) as [Hwf2 Hkey2].
  rewrite Hida in *.
  eexists. split; [reflexivity|].
  split; [rewrite <- Hida; apply (stored_just_filed (h ++ [a]) d _ a)|].
  split; [|split; assumption].
  intros id Hne.
  rewrite <- Hida.
  rewrite (stored_after_filing (h ++ [a]) d c a id Hwf1
             ltac:(rewrite Hida; exact Hne)).
  apply stored_old. intros l Hl. exact (Hwf id l Hl).
Qed.

Lemma OpenAccount_opens_witness :
  exists w',
    OpenAccount_Execute
      (Some [156; 68; 208; 216; 240; 243; 64; 245; 100; 183; 241; 194])
      (mkOpenAccountInput "Bob" "0321 8000 0118 359700") sample_bank
    = Some ((mkOpenAccountOutput "9c44d0d8f0f340f564b7f1c2" "Bob"
               "032180000118359700" 0, None), w')
    /\ stored w' "A" = Some (sample_account "A" 10000).
Proof.
  destruct (OpenAccount_opens sample_bank
              [156; 68; 208; 216; 240; 243; 64; 245; 100; 183; 241; 194]
              (mkOpenAccountInput "Bob" "0321 8000 0118 359700"))
    as (w' & Hrun & _ & Hframe & _).
  - exact sample_bank_well_formed.
  - intros id a Hs. unfold stored, sample_bank in Hs. cbn [heap data] in Hs.
    destruct (decide (id = "A")) as [->|HnA]; [inversion Hs; reflexivity|].
    destruct (decide (id = "B")) as [->|HnB]; [inversion Hs; reflexivity|].
    rewrite !lookup_insert_ne, lookup_empty in Hs by congruence. discriminate.
  - reflexivity.
  - reflexivity.
  - reflexivity.
  - exists w'. split; [exact Hrun|].
    rewrite (Hframe "A") by discriminate. reflexivity.
Defined.

(** X25. How opening an account fails. An input that [NewCLABE] rejects gives
    [ErrInvalidCLABE] and leaves the world exactly as it was, entropy or not.
    With an accepted CLABE the id is drawn before the holder is looked at:
    without entropy the call panics, even for a blank holder; with entropy a
    blank holder gives [ErrEmptyHolder] and leaves the world as it was; and
    an id that is already taken gives "already exists", the account filed
    under that id staying as it was. The output is the zero value each
    time. *)
Theorem OpenAccount_rejected (w : World) (input : OpenAccountInput) :
  let valid :=
    eighteen_digits (GoString.remove_spaces (OpenAccountInput_CLABE input)) in
  let blank := GoString.TrimSpace_empty (OpenAccountInput_HolderName input) in
  (valid = false ->
   forall entropy,
     OpenAccount_Execute entropy input w
     = Some ((no_account, Some ErrInvalidCLABE), w))
  /\ (valid = true -> OpenAccount_Execute None input w = None)
  /\ (valid = true -> blank = true ->
      forall buf,
        OpenAccount_Execute (Some buf) input w
        = Some ((no_account, Some ErrEmptyHolder), w))
  /\ (valid = true -> blank = false -> well_formed w ->
      forall buf taken,
        stored w (hex.EncodeToString buf) = Some taken ->
        exists w',
          OpenAccount_Execute (Some buf) input w
          = Some ((no_account, Some ErrAlreadyExists), w')
          /\ data w' = data w
          /\ (forall id, stored w' id = stored w id)).
Proof.
  intros valid blank. subst valid blank. destruct w as [h d c].
  split; [|split; [|split]].
  - intros Hbad entropy. unfold OpenAccount_Execute.
    rewrite NewCLABE_cases, Hbad. reflexivity.
  - intros Hok.
    rewrite (OpenAccount_valid None input h d c _)
      by (rewrite NewCLABE_cases, Hok; reflexivity).
    reflexivity.
  - intros Hok Hblank buf.
    rewrite (OpenAccount_valid (Some buf) input h d c _)
      by (rewrite NewCLABE_cases, Hok; reflexivity).
    cbv zeta. rewrite Hblank. reflexivity.
  - intros Hok Hblank Hwf buf taken Htaken.
    destruct (stored_some_inv _ _ _ Htaken) as (l & Hd & Hl).
    cbn [heap data] in Hd, Hl.
    rewrite (OpenAccount_valid (Some buf) input h d c _)
      by (rewrite NewCLABE_cases, Hok; reflexivity).
    cbv zeta. rewrite Hblank, Hd.
    eexists. split; [reflexivity|]. cbn [heap data calls].
    split; [reflexivity|].
    intros id. apply stored_old. intros l' Hl'. exact (Hwf id l' Hl').
Qed.

Lemma OpenAccount_rejected_witness :
  OpenAccount_Execute None (mkOpenAccountInput "Bob" "12345") sample_bank
  = Some ((no_account, Some ErrInvalidCLABE), sample_bank)
  /\ OpenAccount_Execute None
       (mkOpenAccountInput " " "032180000118359719") sample_bank = None
  /\ OpenAccount_Execute (Some [1; 2])
       (mkOpenAccountInput " " "032180000118359719") sample_bank
     = Some ((no_account, Some ErrEmptyHolder), sample_bank).
Proof.
  split; [|split].
  - apply (proj1 (OpenAccount_rejected sample_bank
                    (mkOpenAccountInput "Bob" "12345")) eq_refl).
  - apply (proj1 (proj2 (OpenAccount_rejected sample_bank
                    (mkOpenAccountInput " " "032180000118359719"))) eq_refl).
  - apply (proj1 (proj2 (proj2 (OpenAccount_rejected sample_bank
                    (mkOpenAccountInput " " "032180000118359719"))))
             eq_refl eq_refl).
Defined.

(** ** Errors as the HTTP adapter answers them *)

Lemma FakeSTP_gateway_errors amb fromID toID cents status err :
  gateway_SendTransfer amb fromID toID cents = Some (status, err) ->
  (status = "OK" /\ err = None)
  \/ err = Some ErrTransient \/ err = Some ErrContext.
Proof.
  unfold gateway_SendTransfer, FakeSTP_gateway, FakeSTP.SendTransfer.
  destruct (FakeSTP.attempts amb (S (Z.to_nat (FakeSTP.maxRetries + 1))) 0 [])
    as [[r seen]|] eqn:Hrun; [|discriminate].
  destruct (attempts_shape amb _ 0 [] r seen
              ltac:(unfold FakeSTP.maxRetries; lia) Hrun)
    as ([-> | [-> | [-> | ->]]] & _); intros Heq; inversion Heq; subst; auto.
Qed.

(** X26. What [mapDomainErr] makes of a failed transfer through the fake
    rail. An id that is not present is answered 500 "internal error" (there
    is no 404 on this path); with both accounts present an amount [<= 0] is
    answered 400 with the text of [ErrInvalidAmount]; an amount above the
    source's balance is answered 422 "insufficient funds" when the [int64]
    difference of balance and amount does not fall below [MinInt64], as it
    never does from a balance [>= 0]; a positive amount within the balance,
    or one whose difference falls below [MinInt64], passes the debit, and a
    failure of the rail itself (retries exhausted, cancellation) is then
    answered 500 "internal error", logged as unexpected. *)
Theorem transfer_error_status (amb : Ambient) (input : TransferInput)
    (w : World) out e w' :
  well_formed w ->
  Execute amb input w = Some ((out, Some e), w') ->
  (stored w (FromID input) = None \/ stored w (ToID input) = None ->
   mapDomainErr e = (StatusInternalServerError, "internal error", true))
  /\ (forall af at',
        stored w (FromID input) = Some af ->
        stored w (ToID input) = Some at' ->
        (Cents input <= 0 ->
         mapDomainErr e
         = (StatusBadRequest, "invalid amount: must be > 0", false))
        /\ (0 < Cents input -> Cents input <= Int64.MaxInt64 ->
            balance af < Cents input ->
            Int64.MinInt64 <= balance af - Cents input ->
            mapDomainErr e
            = (StatusUnprocessableEntity, "insufficient funds", false))
        /\ (0 < Cents input -> Cents input <= balance af ->
            balance af <= Int64.MaxInt64 ->
            mapDomainErr e
            = (StatusInternalServerError, "internal error", true))
        /\ (0 < Cents input -> Cents input <= Int64.MaxInt64 ->
            Int64.MinInt64 <= balance af ->
            balance af - Cents input < Int64.MinInt64 ->
            mapDomainErr e
            = (StatusInternalServerError, "internal error", true))).
Proof.
  intros Hwf Hrun. split.
  - intros Hmiss.
    destruct (transfer_unknown_account_run amb w input Hwf Hmiss) as (w1 & Hrun1).
    rewrite Hrun1 in Hrun. inversion Hrun; subst. reflexivity.
  - intros af at' Hsf Hst.
    destruct (stored_some_inv _ _ _ Hsf) as (lf & Hdf & Hlf).
    destruct (stored_some_inv _ _ _ Hst) as (lt & Hdt & Hlt).
    destruct w as [h d c]. cbn [heap data calls] in *.
    rewrite (Execute_both_found amb input h d c lf lt af at' Hdf Hlf Hdt Hlt)
      in Hrun.
    cbv zeta in Hrun.
    assert (Hpass : 0 < Cents input ->
                    snd (Debit af (Cents input)) = None ->
                    mapDomainErr e
                    = (StatusInternalServerError, "internal error", true)).
    { intros Hpos Hdeb. rewrite Hdeb, Credit_error in Hrun.
      replace (Cents input <=? 0) with false in Hrun
        by (symmetry; apply Z.leb_gt; lia).
      destruct (gateway_SendTransfer amb (FromID input) (ToID input) (Cents input))
        as [[status err]|] eqn:Hgw; [|discriminate].
      destruct (FakeSTP_gateway_errors amb _ _ _ status err Hgw)
        as [[-> ->] | [-> | ->]].
      * cbn in Hrun. discriminate.
      * inversion Hrun; subst. reflexivity.
      * inversion Hrun; subst. reflexivity. }
    split; [|split; [|split]].
    + intros Hneg. rewrite Debit_rejects in Hrun by assumption.
      cbn [fst snd] in Hrun. inversion Hrun; subst. reflexivity.
    + intros Hpos Hmax Hless Hfit.
      assert (Hdeb : snd (Debit af (Cents input)) = Some ErrInsufficientFund).
      { apply Debit_insufficient_iff;
          unfold Int64.in_range, Int64.MinInt64, Int64.MaxInt64 in *; lia. }
      rewrite Hdeb in Hrun. inversion Hrun; subst. reflexivity.
    + intros Hpos Hle Hmax. apply Hpass; [exact Hpos|].
      rewrite Debit_applied by assumption. reflexivity.
    + intros Hpos Hmax Hmin Hlow. apply Hpass; [exact Hpos|].
      rewrite Debit_wraps;
        [reflexivity | | | exact Hpos | exact Hlow];
        unfold Int64.in_range, Int64.MinInt64, Int64.MaxInt64 in *; lia.
Qed.

Lemma transfer_error_status_witness :
  (exists w',
     Execute rail_down (mkTransferInput "A" "Z" 10) sample_bank
     = Some ((no_output, Some ErrNotFound), w')
     /\ mapDomainErr ErrNotFound
        = (StatusInternalServerError, "internal error", true))
  /\ (exists w',
        Execute rail_down (mkTransferInput "A" "B" 20000) sample_bank
        = Some ((no_output, Some ErrInsufficientFund), w')
        /\ mapDomainErr ErrInsufficientFund
           = (StatusUnprocessableEntity, "insufficient funds", false))
  /\ (exists w',
        Execute rail_down (mkTransferInput "A" "B" 5000) sample_bank
        = Some ((no_output, Some ErrTransient), w')
        /\ mapDomainErr ErrTransient
           = (StatusInternalServerError, "internal error", true)).
Proof.
  split; [|split].
  - eexists. split; [vm_compute; reflexivity|].
    apply (proj1 (transfer_error_status rail_down (mkTransferInput "A" "Z" 10)
                    sample_bank no_output ErrNotFound _
                    sample_bank_well_formed eq_refl)).
    right. reflexivity.
  - eexists. split; [vm_compute; reflexivity|].
    destruct (proj2 (transfer_error_status rail_down
                       (mkTransferInput "A" "B" 20000)
                       sample_bank no_output ErrInsufficientFund _
                       sample_bank_well_formed eq_refl)
                (sample_account "A" 10000) (sample_account "B" 0)
                eq_refl eq_refl) as (_ & Hshort & _).
    apply Hshort; vm_compute; congruence.
  - eexists. split; [vm_compute; reflexivity|].
    destruct (proj2 (transfer_error_status rail_down
                       (mkTransferInput "A" "B" 5000)
                       sample_bank no_output ErrTransient _
                       sample_bank_well_formed eq_refl)
                (sample_account "A" 10000) (sample_account "B" 0)
                eq_refl eq_refl) as (_ & _ & Hrail & _).
    apply Hrail; vm_compute; congruence.
Defined.

(** ** Every reachable store *)

Lemma Deposit_run_invariants w input r w' :
  well_formed w -> keyed_by_id w ->
  DepositMoney_Execute input w = Some (r, w') ->
  well_formed w' /\ keyed_by_id w'.
Proof.
  intros Hwf Hkey Hrun. destruct w as [h d c].
  destruct (d !! DepositInput_AccountID input) as [l|] eqn:Hd.
  - destruct (lookup_lt_is_Some_2 h l (Hwf _ _ Hd)) as [a Hl].
    rewrite (Deposit_found input h d c l a Hd Hl) in Hrun. cbv zeta in Hrun.
    set (cre := fst (Credit a (DepositInput_Cents input))) in *.
    destruct (snd (Credit a (DepositInput_Cents input))) as [e|];
      inversion Hrun; subst.
    + apply (more_cells_invariants h d c); assumption.
    + destruct (more_cells_invariants h d c [cre] c Hwf Hkey) as [Hwf1 Hkey1].
      pose proof (filed_cell_invariants (h ++ [cre]) d c cre
                    (c ++ [CallByID (DepositInput_AccountID input);
                           CallSave (Some (length h + 0)%nat)])
                    Hwf1 Hkey1) as Hfinal.
      rewrite length_app in Hfinal. cbn [length] in Hfinal.
      rewrite <- app_assoc in Hfinal. exact Hfinal.
  - rewrite (Deposit_missing input (mkWorld h d c) Hd) in Hrun.
    inversion Hrun; subst. cbn [heap data calls].
    apply (more_cells_invariants h d c [] c) in Hkey; [|exact Hwf].
    rewrite app_nil_r in Hkey. exact Hkey.
Qed.

Lemma OpenAccount_run_invariants w entropy input r w' :
  well_formed w -> keyed_by_id w ->
  OpenAccount_Execute entropy input w = Some (r, w') ->
  well_formed w' /\ keyed_by_id w'.
Proof.
  intros Hwf Hkey Hrun. destruct w as [h d c].
  destruct (eighteen_digits
              (GoString.remove_spaces (OpenAccountInput_CLABE input))) eqn:E18.
  2:{ unfold OpenAccount_Execute in Hrun. rewrite NewCLABE_cases, E18 in Hrun.
      inversion Hrun; subst. split; assumption. }
  rewrite (OpenAccount_valid entropy input h d c
             (GoString.remove_spaces (OpenAccountInput_CLABE input)))
    in Hrun by (rewrite NewCLABE_cases, E18; reflexivity).
  destruct entropy as [buf|]; [|discriminate]. cbv zeta in Hrun.
  set (a := mkAccount (hex.EncodeToString buf) (OpenAccountInput_HolderName input)
              (mkCLABE (GoString.remove_spaces (OpenAccountInput_CLABE input))) 0)
    in *.
  destruct (GoString.TrimSpace_empty (OpenAccountInput_HolderName input)).
  { inversion Hrun; subst. split; assumption. }
  destruct (d !! hex.EncodeToString buf) as [l|]; inversion Hrun; subst.
  - apply (more_cells_invariants h d c); assumption.
  - destruct (more_cells_invariants h d c [a] c Hwf Hkey) as [Hwf1 Hkey1].
    exact (filed_cell_invariants (h ++ [a]) d c a
             (c ++ [CallCreate (Some (length h))]) Hwf1 Hkey1).
Qed.

(** X17. Every store that can be reached from the empty repository by
    serving open-account, deposit and transfer requests, in any number and
    order and with any outcome of the rail and of the id generator, is
    well-formed (every id points at a live cell) and filed by id (the account
    under an id carries that id). *)
Theorem reachable_store_invariants (rs : list request) (w' : World) :
  serve_all rs NewAccountRepo = Some w' ->
  well_formed w' /\ keyed_by_id w'.
Proof.
  assert (Hgen : forall rs w, well_formed w /\ keyed_by_id w ->
                              serve_all rs w = Some w' ->
                              well_formed w' /\ keyed_by_id w').
  { clear rs. induction rs as [|r rest IH]; intros w Hinv Hrun.
    - inversion Hrun; subst. exact Hinv.
    - cbn [serve_all] in Hrun.
      destruct (serve r w) as [w1|] eqn:Hserve; [|discriminate].
      apply (IH w1); [|exact Hrun].
      destruct Hinv as [Hwf Hkey].
      destruct r as [entropy input|input|amb input]; cbn [serve] in Hserve.
      + destruct (OpenAccount_Execute entropy input w) as [[r w2]|] eqn:E;
          [|discriminate]. inversion Hserve; subst.
        eapply OpenAccount_run_invariants; eassumption.
      + destruct (DepositMoney_Execute input w) as [[r w2]|] eqn:E;
          [|discriminate]. inversion Hserve; subst.
        eapply Deposit_run_invariants; eassumption.
      + destruct (Execute amb input w) as [[r w2]|] eqn:E;
          [|discriminate]. inversion Hserve; subst.
        eapply Execute_keeps_invariants; eassumption. }
  apply Hgen. exact NewAccountRepo_invariants.
Qed.

Lemma reachable_store_invariants_witness :
  exists w',
    serve_all
      [ReqOpenAccount
         (Some [156; 68; 208; 216; 240; 243; 64; 245; 100; 183; 241; 194])
         (mkOpenAccountInput "Alice" "032180000118359719");
       ReqDeposit (mkDepositInput "9c44d0d8f0f340f564b7f1c2" 15000);
       ReqTransfer rail_up
         (mkTransferInput "9c44d0d8f0f340f564b7f1c2"
            "9c44d0d8f0f340f564b7f1c2" 5000)]
      NewAccountRepo = Some w'
    /\ stored_balance w' "9c44d0d8f0f340f564b7f1c2" = Some 20000
    /\ well_formed w' /\ keyed_by_id w'.
Proof.
  eexists. split; [vm_compute; reflexivity|].
  split; [vm_compute; reflexivity|].
  apply (reachable_store_invariants
           [ReqOpenAccount
              (Some [156; 68; 208; 216; 240; 243; 64; 245; 100; 183; 241; 194])
              (mkOpenAccountInput "Alice" "032180000118359719");
            ReqDeposit (mkDepositInput "9c44d0d8f0f340f564b7f1c2" 15000);
            ReqTransfer rail_up
              (mkTransferInput "9c44d0d8f0f340f564b7f1c2"
                 "9c44d0d8f0f340f564b7f1c2" 5000)]).
  vm_compute. reflexivity.
Defined.

(** ** Routing *)

Lemma cut_without_sep sep s :
  ~ In sep (list_ascii_of_string s) -> strings.cut sep s = (s, []).
Proof.
  induction s as [|c rest IH]; intros Hno; [reflexivity|].
  cbn [strings.cut list_ascii_of_string In] in *.
  rewrite IH by tauto.
  destruct (Ascii.eqb c sep) eqn:Ec; [|reflexivity].
  apply Ascii.eqb_eq in Ec. tauto.
Qed.

Lemma cut_at_sep sep a b :
  ~ In sep (list_ascii_of_string a) ->
  strings.cut sep (String.append a (String sep b))
  = (a, fst (strings.cut sep b) :: snd (strings.cut sep b)).
Proof.
  induction a as [|c rest IH]; intros Hno.
  - simpl. destruct (strings.cut sep b). simpl.
    rewrite Ascii.eqb_refl. reflexivity.
  - simpl in *. rewrite IH by tauto.
    destruct (Ascii.eqb c sep) eqn:Ec; [|reflexivity].
    apply Ascii.eqb_eq in Ec. tauto.
Qed.

Lemma cut_inv sep : forall s piece pieces,
  strings.cut sep s = (piece, pieces) ->
  ~ In sep (list_ascii_of_string piece)
  /\ match pieces with
     | [] => s = piece
     | q :: qs => exists rest, s = String.append piece (String sep rest)
                               /\ strings.cut sep rest = (q, qs)
     end.
Proof.
  induction s as [|c rest IH]; intros piece pieces Hcut.
  - inversion Hcut; subst. split; [intros []|reflexivity].
  - cbn [strings.cut] in Hcut.
    destruct (strings.cut sep rest) as [p ps] eqn:Erest.
    destruct (IH p ps eq_refl) as [Hno Hshape].
    destruct (Ascii.eqb c sep) eqn:Ec.
    + apply Ascii.eqb_eq in Ec. subst c. inversion Hcut; subst.
      split; [intros []|]. exists rest. split; [reflexivity | exact Erest].
    + apply Ascii.eqb_neq in Ec. inversion Hcut; subst.
      split; [intros [Heq|Hin]; [congruence | tauto]|].
      destruct pieces as [|q qs].
      * cbn. rewrite Hshape. reflexivity.
      * destruct Hshape as (rest' & -> & Hcut'). exists rest'.
        split; [reflexivity | exact Hcut'].
Qed.

(** X27. Routing below [/accounts/]. A GET for [/accounts/<id>] with a
    non-empty id without a slash reaches the account lookup with that id, and
    a POST for [/accounts/<id>/deposit] reaches the deposit with that id; and
    nothing else does: the lookup is reached only by GET with such a path, the
    deposit only by POST with such a path. An empty id is answered "missing
    id" whatever the method and whatever follows it. *)
Theorem handleAccountDetail_routes :
  (forall id,
     id <> EmptyString -> ~ In "/"%char (list_ascii_of_string id) ->
     handleAccountDetail (String.append "/accounts/" id) "GET"
     = CallGetAccount id
     /\ handleAccountDetail
          (String.append "/accounts/" (String.append id "/deposit")) "POST"
        = CallDeposit id)
  /\ (forall path method id,
        handleAccountDetail (String.append "/accounts/" path) method
        = CallGetAccount id ->
        path = id /\ method = "GET"%string /\ id <> EmptyString
        /\ ~ In "/"%char (list_ascii_of_string id))
  /\ (forall path method id,
        handleAccountDetail (String.append "/accounts/" path) method
        = CallDeposit id ->
        path = String.append id "/deposit" /\ method = "POST"%string
        /\ id <> EmptyString /\ ~ In "/"%char (list_ascii_of_string id))
  /\ (forall rest method,
        handleAccountDetail
          (String.append "/accounts/" (String "/" rest)) method
        = AnswerMissingID)
  /\ (forall method, handleAccountDetail "/accounts/" method = AnswerMissingID).
Proof.
  assert (Hprefix : forall path,
            strings.TrimPrefix (String.append "/accounts/" path) "/accounts/"
            = path) by reflexivity.
  split; [|split; [|split; [|split]]].
  - intros id Hne Hno. unfold handleAccountDetail, strings.Split.
    rewrite !Hprefix. split.
    + rewrite cut_without_sep by assumption.
      destruct (String.eqb id "") eqn:Eid;
        [apply String.eqb_eq in Eid; contradiction | reflexivity].
    + change (String.append id "/deposit")
        with (String.append id (String "/" "deposit")).
      rewrite cut_at_sep by assumption. cbn.
      destruct (String.eqb id "") eqn:Eid;
        [apply String.eqb_eq in Eid; contradiction | reflexivity].
  - intros path method id. unfold handleAccountDetail, strings.Split.
    rewrite Hprefix.
    destruct (strings.cut "/" path) as [p ps] eqn:Ecut.
    destruct (cut_inv "/" path p ps Ecut) as [Hno Hshape].
    destruct (String.eqb p "") eqn:Ep; [discriminate|].
    apply String.eqb_neq in Ep.
    destruct ps as [|q [|q' qs]]; cbn [length Nat.eqb andb].
    + destruct (String.eqb method "GET") eqn:Em; [|discriminate].
      intros Heq. inversion Heq; subst. apply String.eqb_eq in Em.
      repeat split; assumption.
    + destruct (String.eqb q "deposit" && String.eqb method "POST");
        discriminate.
    + discriminate.
  - intros path method id. unfold handleAccountDetail, strings.Split.
    rewrite Hprefix.
    destruct (strings.cut "/" path) as [p ps] eqn:Ecut.
    destruct (cut_inv "/" path p ps Ecut) as [Hno Hshape].
    destruct (String.eqb p "") eqn:Ep; [discriminate|].
    apply String.eqb_neq in Ep.
    destruct ps as [|q [|q' qs]]; cbn [length Nat.eqb andb].
    + destruct (String.eqb method "GET"); discriminate.
    + destruct (String.eqb q "deposit") eqn:Eq; [|discriminate].
      destruct (String.eqb method "POST") eqn:Em; [|discriminate].
      cbn [andb]. intros Heq. inversion Heq; subst.
      apply String.eqb_eq in Eq, Em. subst q.
      destruct Hshape as (rest & -> & Hrest).
      destruct (cut_inv "/" rest "deposit" [] Hrest) as [_ ->].
      repeat split; assumption.
    + discriminate.
  - intros rest method. unfold handleAccountDetail, strings.Split.
    rewrite Hprefix. cbn [strings.cut].
    destruct (strings.cut "/" rest). reflexivity.
  - intros method. reflexivity.
Qed.

Lemma handleAccountDetail_routes_witness :
  handleAccountDetail "/accounts/9c44d0d8f0f340f564b7f1c2" "GET"
  = CallGetAccount "9c44d0d8f0f340f564b7f1c2"
  /\ handleAccountDetail "/accounts/9c44d0d8f0f340f564b7f1c2/deposit" "POST"
     = CallDeposit "9c44d0d8f0f340f564b7f1c2".
Proof.
  apply (proj1 handleAccountDetail_routes "9c44d0d8f0f340f564b7f1c2").
  - discriminate.
  - cbn. intros H. repeat (destruct H as [H|H]; [discriminate|]). exact H.
Defined.

(** ** The backoff ceiling in floating point *)


Lemma int64_of_float64_in_range m f :
  Int64.in_range (IEEE.int64_of_float64 m f).
Proof.
  unfold IEEE.int64_of_float64.
  destruct (IEEE.truncate f) as [z|]; [|apply wrap_in_range].
  destruct ((Int64.MinInt64 <=? z) && (z <=? Int64.MaxInt64)) eqn:E;
    [|apply wrap_in_range].
  bool_to_Z. split; assumption.
Qed.

(** With the constants of the rail client the binary64 stage is exact: it
    yields the integer part of [baseDelay * multiplier ^ attemptIndex] at
    each of the four indices a wait is computed for. *)
Lemma rail_exponentials_exact :
  IEEE.value (IEEE.float64_of_int64 2) = Some FakeSTP.multiplier
  /\ Forall (fun attemptIndex =>
               IEEE.exponential sample_machine attemptIndex FakeSTP.baseDelay
                 (IEEE.float64_of_int64 2)
               = exact_fpu attemptIndex FakeSTP.baseDelay FakeSTP.multiplier)
            [0; 1; 2; 3].
Proof. split; [reflexivity|]. repeat constructor. Qed.



